(** * typesense-go: the scoped search key generator and the status-code
      mapping of the collection, override and API-key operations.

    The development embeds [apikey.go] and [collections.go] (and the older
    [package main] variant of [RetrieveCollection]) as Rocq functions.
    Go's standard library is modelled as far as the client calls it:
    [crypto/sha256], [crypto/hmac], [encoding/base64], [encoding/json]
    ([Marshal] of a [map[string]string]), [unicode/utf8] and [fmt.Sprintf]. *)

From Stdlib Require Import ZArith Lia List Bool DecimalString DecimalPos DecimalZ.
From Stdlib.Strings Require Import String Ascii Byte.
From stdpp Require Import base option list sorting gmap strings.
Import ListNotations.

Local Open Scope Z_scope.

(** ** Bytes and strings

    A Go [string] is an immutable byte sequence and is modelled as a Rocq
    [string]; a [[]byte] value is a [list byte]. *)

Definition byte_to_Z (b : byte) : Z := Z.of_N (Byte.to_N b).

Definition Z_to_byte (z : Z) : byte :=
  match Byte.of_N (Z.to_N (z mod 256)) with
  | Some b => b
  | None => x00
  end.

(** [[]byte(s)] and [string(b)], contents only. *)
Definition bytes_of_string (s : string) : list byte := list_byte_of_string s.
Definition string_of_bytes (b : list byte) : string := string_of_list_byte b.

(** Lower-case hexadecimal, for the digests of the test vectors. *)
Definition hex_of_bytes (l : list byte) : string :=
  let hexd := "0123456789abcdef" in
  let d (i : Z) := match String.get (Z.to_nat i) hexd with Some c => c | None => "?"%char end in
  fold_right (fun b s => String (d (byte_to_Z b / 16)) (String (d (byte_to_Z b mod 16)) s)) "" l.

(** ** encoding/base64: [StdEncoding.EncodeToString] *)
Module base64.

Definition encodeStd : string :=
  "ABCDEFGHIJKLMNOPQRSTUVWXYZabcdefghijklmnopqrstuvwxyz0123456789+/".

Definition StdPadding : ascii := "="%char.

(** [encodeStd[i]] for a 6-bit [i]. *)
Definition enc (i : Z) : ascii :=
  match String.get (Z.to_nat (Z.land i 63)) encodeStd with
  | Some c => c
  | None => StdPadding
  end.

(** [Encoding.Encode]: every full group of three source bytes gives four
    characters, a remainder of one or two bytes gives a padded quantum. *)
Fixpoint Encode (src : list byte) : string :=
  match src with
  | [] => ""
  | [b0] =>
      let val := Z.shiftl (byte_to_Z b0) 16 in
      String (enc (Z.shiftr val 18)) (String (enc (Z.shiftr val 12))
        (String StdPadding (String StdPadding "")))
  | [b0; b1] =>
      let val := Z.lor (Z.shiftl (byte_to_Z b0) 16) (Z.shiftl (byte_to_Z b1) 8) in
      String (enc (Z.shiftr val 18)) (String (enc (Z.shiftr val 12))
        (String (enc (Z.shiftr val 6)) (String StdPadding "")))
  | b0 :: b1 :: b2 :: rest =>
      let val := Z.lor (Z.lor (Z.shiftl (byte_to_Z b0) 16) (Z.shiftl (byte_to_Z b1) 8))
                       (byte_to_Z b2) in
      String (enc (Z.shiftr val 18)) (String (enc (Z.shiftr val 12))
        (String (enc (Z.shiftr val 6)) (String (enc val) (Encode rest))))
  end.

Definition EncodeToString (src : list byte) : string := Encode src.

End base64.

(** ** crypto/sha256 *)
Module sha256.

Definition Size : nat := 32.
Definition BlockSize : nat := 64.

Definition u32 (x : Z) : Z := x mod 2 ^ 32.

(** [bits.RotateLeft32(x, -k)] on a 32-bit word. *)
Definition rotr (k x : Z) : Z :=
  Z.lor (Z.shiftr x k) (u32 (Z.shiftl x (32 - k))).

Definition hexval (c : ascii) : Z :=
  let n := Z.of_N (N_of_ascii c) in
  if (48 <=? n) && (n <=? 57) then n - 48
  else if (97 <=? n) && (n <=? 102) then n - 87
  else 0.

Fixpoint hexwords (s : string) (k : nat) (acc : Z) : list Z :=
  match s with
  | EmptyString => []
  | String c s' =>
      let acc' := acc * 16 + hexval c in
      match k with
      | O => acc' :: hexwords s' 7 0
      | S k' => hexwords s' k' acc'
      end
  end.

(** The round constants [_K], eight hexadecimal digits a word. *)
Definition _K : list Z := Eval vm_compute in hexwords
  ("428a2f9871374491b5c0fbcfe9b5dba53956c25b59f111f1923f82a4ab1c5ed5" +:+
   "d807aa9812835b01243185be550c7dc372be5d7480deb1fe9bdc06a7c19bf174" +:+
   "e49b69c1efbe47860fc19dc6240ca1cc2de92c6f4a7484aa5cb0a9dc76f988da" +:+
   "983e5152a831c66db00327c8bf597fc7c6e00bf3d5a7914706ca635114292967" +:+
   "27b70a852e1b21384d2c6dfc53380d13650a7354766a0abb81c2c92e92722c85" +:+
   "a2bfe8a1a81a664bc24b8b70c76c51a3d192e819d6990624f40e3585106aa070" +:+
   "19a4c1161e376c082748774c34b0bcb5391c0cb34ed8aa4a5b9cca4f682e6ff3" +:+
   "748f82ee78a5636f84c878148cc7020890befffaa4506cebbef9a3f7c67178f2")
  7%nat 0.

(** The initial state [init0 .. init7]. *)
Definition init : list Z := Eval vm_compute in hexwords
  "6a09e667bb67ae853c6ef372a54ff53a510e527f9b05688c1f83d9ab5be0cd19" 7%nat 0.

(** Big-endian 32-bit words of a chunk. *)
Fixpoint be_words (p : list byte) : list Z :=
  match p with
  | b0 :: b1 :: b2 :: b3 :: rest =>
      Z.lor (Z.lor (Z.lor (Z.shiftl (byte_to_Z b0) 24) (Z.shiftl (byte_to_Z b1) 16))
                   (Z.shiftl (byte_to_Z b2) 8)) (byte_to_Z b3) :: be_words rest
  | _ => []
  end.

Definition nthw (w : list Z) (i : nat) : Z := nth i w 0.

(** The message schedule: [w[i]] for [i] from 16 to 63, [n] more words
    appended to the [i] words already there. *)
Fixpoint schedule (n : nat) (i : nat) (w : list Z) : list Z :=
  match n with
  | O => w
  | S n' =>
      let v1 := nthw w (i - 2) in
      let t1 := Z.lxor (Z.lxor (rotr 17 v1) (rotr 19 v1)) (Z.shiftr v1 10) in
      let v2 := nthw w (i - 15) in
      let t2 := Z.lxor (Z.lxor (rotr 7 v2) (rotr 18 v2)) (Z.shiftr v2 3) in
      schedule n' (S i) (w ++ [u32 (t1 + nthw w (i - 7) + t2 + nthw w (i - 16))])
  end.

Record regs := Regs { ra : Z; rb : Z; rc : Z; rd : Z; re : Z; rf : Z; rg : Z; rh : Z }.

Definition round (r : regs) (kw : Z * Z) : regs :=
  let '(Regs a b c d e f g h) := r in
  let t1 := u32 (h + Z.lxor (Z.lxor (rotr 6 e) (rotr 11 e)) (rotr 25 e)
                   + Z.lxor (Z.land e f) (Z.land (Z.lxor e (2 ^ 32 - 1)) g)
                   + fst kw + snd kw) in
  let t2 := u32 (Z.lxor (Z.lxor (rotr 2 a) (rotr 13 a)) (rotr 22 a)
                 + Z.lxor (Z.lxor (Z.land a b) (Z.land a c)) (Z.land b c)) in
  Regs (u32 (t1 + t2)) a b c (u32 (d + t1)) e f g.

(** One 64-byte chunk of [blockGeneric]. *)
Definition block (h : regs) (p : list byte) : regs :=
  let w := schedule 48 16 (be_words p) in
  let r := fold_left round (combine _K w) h in
  Regs (u32 (ra h + ra r)) (u32 (rb h + rb r)) (u32 (rc h + rc r)) (u32 (rd h + rd r))
       (u32 (re h + re r)) (u32 (rf h + rf r)) (u32 (rg h + rg r)) (u32 (rh h + rh r)).

Fixpoint blocks (n : nat) (h : regs) (p : list byte) : regs :=
  match n with
  | O => h
  | S n' => blocks n' (block h (firstn 64 p)) (skipn 64 p)
  end.

Definition be_bytes (k : nat) (x : Z) : list byte :=
  map (fun i => Z_to_byte (Z.shiftr x (8 * Z.of_nat i))) (rev (seq 0 k)).

(** [checkSum]: the 0x80 byte, zeroes up to 56 modulo 64, the bit length as
    a big-endian 64-bit integer. *)
Definition pad (len : nat) : list byte :=
  let r := (len mod 64)%nat in
  let z := (if (r <? 56)%nat then 55 - r else 119 - r)%nat in
  x80 :: repeat x00 z ++ be_bytes 8 (Z.of_nat len * 8 mod 2 ^ 64).

Definition init_regs : regs :=
  Regs (nthw init 0) (nthw init 1) (nthw init 2) (nthw init 3)
       (nthw init 4) (nthw init 5) (nthw init 6) (nthw init 7).

(** The digest of everything written to a fresh [sha256.New()]. *)
Definition Sum256 (data : list byte) : list byte :=
  let m := data ++ pad (length data) in
  let '(Regs a b c d e f g h) := blocks (length m / 64) init_regs m in
  be_bytes 4 a ++ be_bytes 4 b ++ be_bytes 4 c ++ be_bytes 4 d ++
  be_bytes 4 e ++ be_bytes 4 f ++ be_bytes 4 g ++ be_bytes 4 h.

End sha256.

(** ** crypto/hmac over [sha256.New] *)
Module hmac.

(** The state of [hmac.New(sha256.New, key)]: the two pads and what has
    been written to the inner hash after [ipad]. *)
Record t := Hmac { ipad : list byte; opad : list byte; inner : list byte }.

Definition xor_pad (c : Z) (key : list byte) : list byte :=
  map (fun b => Z_to_byte (Z.lxor (byte_to_Z b) c))
      (key ++ repeat x00 (sha256.BlockSize - length key)).

Definition New (key : list byte) : t :=
  let key := if (sha256.BlockSize <? length key)%nat then sha256.Sum256 key else key in
  Hmac (xor_pad 54 key) (xor_pad 92 key) [].

(** [Write] hands the bytes to the inner hash, whose [Write] "never returns
    an error" ([hash.Hash]): the error result is always [nil]. *)
Definition Write {E : Type} (h : t) (p : list byte) : t * (nat * option E) :=
  (Hmac (ipad h) (opad h) (inner h ++ p), (length p, None)).

(** [Sum(nil)]. *)
Definition Sum (h : t) : list byte :=
  sha256.Sum256 (opad h ++ sha256.Sum256 (ipad h ++ inner h)).

End hmac.

(** ** unicode/utf8 *)
Module utf8.

Definition RuneError : Z := 65533.
Definition MaxRune : Z := 1114111.

Definition code (c : ascii) : Z := Z.of_N (N_of_ascii c).
Definition chr (z : Z) : ascii := ascii_of_N (Z.to_N (z mod 256)).

(** The entry of the table [first] for a leading byte: [None] for [xx]
    (an invalid leading byte), otherwise the size of the encoding and the
    range accepted for the second byte. Leading bytes below 0x80 are ASCII
    and handled by the caller. *)
Definition first (s0 : Z) : option (nat * Z * Z) :=
  if s0 <? 194 then None
  else if s0 <? 224 then Some (2%nat, 128, 191)
  else if s0 =? 224 then Some (3%nat, 160, 191)
  else if s0 <? 237 then Some (3%nat, 128, 191)
  else if s0 =? 237 then Some (3%nat, 128, 159)
  else if s0 <? 240 then Some (3%nat, 128, 191)
  else if s0 =? 240 then Some (4%nat, 144, 191)
  else if s0 <? 244 then Some (4%nat, 128, 191)
  else if s0 =? 244 then Some (4%nat, 128, 143)
  else None.

Definition cont (b : Z) : bool := (128 <=? b) && (b <=? 191).

(** [DecodeRuneInString]: the rune at the start of [s] and its width in
    bytes; [(RuneError, 1)] for an invalid encoding. *)
Definition DecodeRuneInString (s : string) : Z * nat :=
  match s with
  | EmptyString => (RuneError, 0%nat)
  | String c0 r0 =>
      let s0 := code c0 in
      if s0 <? 128 then (s0, 1%nat)
      else match first s0 with
      | None => (RuneError, 1%nat)
      | Some (sz, lo, hi) =>
          match r0 with
          | EmptyString => (RuneError, 1%nat)
          | String c1 r1 =>
              let s1 := code c1 in
              if (String.length s <? sz)%nat then (RuneError, 1%nat)
              else if (s1 <? lo) || (hi <? s1) then (RuneError, 1%nat)
              else if (sz <=? 2)%nat then
                (Z.lor (Z.shiftl (Z.land s0 31) 6) (Z.land s1 63), 2%nat)
              else match r1 with
              | EmptyString => (RuneError, 1%nat)
              | String c2 r2 =>
                  let s2 := code c2 in
                  if negb (cont s2) then (RuneError, 1%nat)
                  else if (sz <=? 3)%nat then
                    (Z.lor (Z.lor (Z.shiftl (Z.land s0 15) 12) (Z.shiftl (Z.land s1 63) 6))
                           (Z.land s2 63), 3%nat)
                  else match r2 with
                  | EmptyString => (RuneError, 1%nat)
                  | String c3 _ =>
                      let s3 := code c3 in
                      if negb (cont s3) then (RuneError, 1%nat)
                      else (Z.lor (Z.lor (Z.lor (Z.shiftl (Z.land s0 7) 18)
                                                (Z.shiftl (Z.land s1 63) 12))
                                         (Z.shiftl (Z.land s2 63) 6)) (Z.land s3 63), 4%nat)
                  end
              end
          end
      end
  end.

(** [AppendRune] to an empty buffer. *)
Definition AppendRune (r : Z) : string :=
  if (0 <=? r) && (r <=? 127) then String (chr r) ""
  else if (0 <=? r) && (r <=? 2047) then
    String (chr (Z.lor 192 (Z.shiftr r 6))) (String (chr (Z.lor 128 (Z.land r 63))) "")
  else
    let r := if (r <? 0) || (MaxRune <? r) || ((55296 <=? r) && (r <=? 57343))
             then RuneError else r in
    if r <=? 65535 then
      String (chr (Z.lor 224 (Z.shiftr r 12)))
        (String (chr (Z.lor 128 (Z.land (Z.shiftr r 6) 63)))
           (String (chr (Z.lor 128 (Z.land r 63))) ""))
    else
      String (chr (Z.lor 240 (Z.shiftr r 18)))
        (String (chr (Z.lor 128 (Z.land (Z.shiftr r 12) 63)))
           (String (chr (Z.lor 128 (Z.land (Z.shiftr r 6) 63)))
              (String (chr (Z.lor 128 (Z.land r 63))) ""))).

End utf8.

(** [s[n:]] for [n] within the string. *)
Fixpoint string_drop (n : nat) (s : string) : string :=
  match n, s with
  | O, _ => s
  | S n', String _ s' => string_drop n' s'
  | S _, EmptyString => EmptyString
  end.

(** ** encoding/json: [Marshal] of a [map[string]string]

    A Go map value is [nil] or a finite map; [Marshal] tells them apart. *)
Module json.

Definition hex : string := "0123456789abcdef".

Definition backslash : ascii := "092"%char.
Definition dquote : ascii := "034"%char.

Definition hexdigit (i : Z) : ascii :=
  match String.get (Z.to_nat (Z.land i 15)) hex with
  | Some c => c
  | None => "0"%char
  end.

(** [htmlSafeSet[b]] for a byte below [utf8.RuneSelf]. *)
Definition htmlSafeSet (b : Z) : bool :=
  (32 <=? b) && negb ((b =? 34) || (b =? 38) || (b =? 60) || (b =? 62) || (b =? 92)).

(** The escape written for a byte that is not in [htmlSafeSet].  (Releases
    before Go 1.22 have no cases for backspace and form feed and write
    them with the default case.) *)
Definition escape (c : ascii) : string :=
  let b := utf8.code c in
  if (b =? 92) || (b =? 34) then String backslash (String c "")
  else if b =? 8 then String backslash "b"
  else if b =? 12 then String backslash "f"
  else if b =? 10 then String backslash "n"
  else if b =? 13 then String backslash "r"
  else if b =? 9 then String backslash "t"
  else (String backslash "u00" +:+
        String (hexdigit (Z.shiftr b 4)) (String (hexdigit b) ""))%string.

(** The loop of [appendString] with [escapeHTML] set, between the quotes.
    After the first byte of a multi-byte rune, [pending] counts the bytes
    of that rune still to be passed over: copied for a valid rune, dropped
    for U+2028 and U+2029, which are written as escapes. *)
Fixpoint appendString_loop (pending : nat) (copy : bool) (src : string) : string :=
  match src with
  | EmptyString => EmptyString
  | String c rest =>
      match pending with
      | S k =>
          if copy then String c (appendString_loop k copy rest)
          else appendString_loop k copy rest
      | O =>
          let b := utf8.code c in
          if b <? 128 then
            if htmlSafeSet b then String c (appendString_loop 0 true rest)
            else (escape c +:+ appendString_loop 0 true rest)%string
          else
            let '(r, size) := utf8.DecodeRuneInString src in
            if (r =? utf8.RuneError) && (size =? 1)%nat then
              (String backslash "ufffd" +:+ appendString_loop 0 true rest)%string
            else if (r =? 8232) || (r =? 8233) then
              (String backslash "u202" +:+
               String (hexdigit r) (appendString_loop (size - 1) false rest))%string
            else String c (appendString_loop (size - 1) true rest)
      end
  end.

Definition appendString (src : string) : string :=
  String dquote (appendString_loop 0 true src +:+ String dquote "").

(** Keys are written in increasing byte order. *)
Definition key_le (a b : string * string) : Prop := String.leb (fst a) (fst b) = true.

#[global] Instance key_le_dec a b : Decision (key_le a b).
Proof. unfold key_le. apply _. Defined.

Definition sorted_entries (m : gmap string string) : list (string * string) :=
  merge_sort key_le (map_to_list m).

Fixpoint entries (first : bool) (kvs : list (string * string)) : string :=
  match kvs with
  | [] => ""
  | (k, v) :: rest =>
      ((if first then "" else ",") +:+ appendString k +:+ ":" +:+ appendString v
       +:+ entries false rest)%string
  end.

(** [json.Marshal(options)] for [options] of type [map[string]string]; the
    error result is always [nil] for this type. *)
Definition Marshal (options : option (gmap string string)) : list byte :=
  match options with
  | None => bytes_of_string "null"
  | Some m => bytes_of_string ("{" +:+ entries true (sorted_entries m) +:+ "}")%string
  end.

End json.

(** ** fmt: [Sprintf] called with a format and no operands

    [doPrintf] with an empty operand list [a]: [argNum] stays 0, every verb
    other than [%%] finds no operand. *)
Module fmt.

Definition percent : ascii := "%"%char.

Definition is_flag (c : ascii) : bool :=
  (c =? "#")%char || (c =? "0")%char || (c =? "+")%char || (c =? "-")%char || (c =? " ")%char.

Fixpoint skip_flags (s : string) : string :=
  match s with
  | String c r => if is_flag c then skip_flags r else s
  | EmptyString => s
  end.

Definition is_digit (c : ascii) : bool :=
  (48 <=? utf8.code c) && (utf8.code c <=? 57).

Definition tooLarge (x : Z) : bool := (1000000 <? x) || (x <? -1000000).

(** [parsenum(s, start, end)] on the text [s[start:end]]: the number, whether
    one was read, and the text left before [end] (none after an overflow,
    which moves to [end]). *)
Fixpoint parsenum (s : string) (num : Z) (isnum : bool) : Z * bool * string :=
  match s with
  | String c r =>
      if is_digit c then
        if tooLarge num then (0, false, EmptyString)
        else parsenum r (num * 10 + (utf8.code c - 48)) true
      else (num, isnum, s)
  | EmptyString => (num, isnum, s)
  end.

(** The text before the first closing bracket, if there is one. *)
Fixpoint before_bracket (s : string) : option string :=
  match s with
  | EmptyString => None
  | String c r =>
      if (c =? "]")%char then Some EmptyString
      else match before_bracket r with
           | Some t => Some (String c t)
           | None => None
           end
  end.

(** [parseArgNumber(format)] for a [format] that starts with the opening
    bracket: the index, the width of the bracketed text, whether it is a
    well-formed [[n]]. *)
Definition parseArgNumber (format : string) : Z * nat * bool :=
  if (String.length format <? 3)%nat then (0, 1%nat, false)
  else match format with
  | EmptyString => (0, 1%nat, false)
  | String _ r =>
      match before_bracket r with
      | None => (0, 1%nat, false)
      | Some t =>
          let i := S (String.length t) in
          let '(width, ok, remaining) := parsenum t 0 false in
          if negb ok || negb (String.length remaining =? 0)%nat then (0, S i, false)
          else (width - 1, S i, true)
      end
  end.

(** [p.argNumber(argNum, format, i, 0)] on [format[i:]]: with no operand
    no index is in range, so a bracket always clears [goodArgNum].
    Returns the text after the bracket, [found] and [goodArgNum]. *)
Definition argNumber (good : bool) (s : string) : string * bool * bool :=
  match s with
  | String c _ =>
      if (c =? "[")%char then
        let '(index, wid, ok) := parseArgNumber s in
        (string_drop wid s, ok, false)
      else (s, false, good)
  | EmptyString => (s, false, good)
  end.

Definition starts_with (c : ascii) (s : string) : bool :=
  match s with
  | String c' _ => (c' =? c)%char
  | EmptyString => false
  end.

(** "Do we have width?"  An asterisk asks for an operand, and there is
    none.  Returns what is written, the text left, [afterIndex] and
    [goodArgNum]. *)
Definition width (afterIndex good : bool) (s : string) : string * string * bool * bool :=
  if starts_with "*" s then ("%!(BADWIDTH)"%string, string_drop 1 s, false, good)
  else
    let '(_, widPresent, s') := parsenum s 0 false in
    (EmptyString, s', afterIndex, if afterIndex && widPresent then false else good).

(** "Do we have precision?" *)
Definition precision (afterIndex good : bool) (s : string)
    : string * string * bool * bool :=
  if starts_with "." s then
    let s := string_drop 1 s in
    let good := if afterIndex then false else good in
    let '(s, afterIndex, good) := argNumber good s in
    if starts_with "*" s then ("%!(BADPREC)"%string, string_drop 1 s, false, good)
    else
      let '(_, _, s') := parsenum s 0 false in
      (EmptyString, s', afterIndex, good)
  else (EmptyString, s, afterIndex, good).

(** The verb itself: a percent sign is written as such, any other verb
    finds no operand (or a bad index). *)
Definition operand (good : bool) (s : string) : string * string :=
  match s with
  | EmptyString => ("%!(NOVERB)"%string, EmptyString)
  | String c _ =>
      let '(v, size) :=
        if utf8.code c <? 128 then (utf8.code c, 1%nat) else utf8.DecodeRuneInString s in
      let rest := string_drop size s in
      if v =? utf8.code percent then ("%"%string, rest)
      else if negb good then (("%!" +:+ utf8.AppendRune v +:+ "(BADINDEX)")%string, rest)
      else (("%!" +:+ utf8.AppendRune v +:+ "(MISSING)")%string, rest)
  end.

(** One turn of the loop at a percent sign: the text after it gives what
    is written to the buffer and the text that is left. *)
Definition verb (s : string) : string * string :=
  let s := skip_flags s in
  let '(s, afterIndex, good) := argNumber true s in
  let '(out1, s, afterIndex, good) := width afterIndex good s in
  let '(out2, s, afterIndex, good) := precision afterIndex good s in
  let '(s, afterIndex, good) :=
    if afterIndex then (s, afterIndex, good) else argNumber good s in
  let '(out3, s) := operand good s in
  ((out1 +:+ out2 +:+ out3)%string, s).

(** The loop of [doPrintf]; every turn takes at least one byte of the
    format, so [String.length format] turns are enough. *)
Fixpoint doPrintf (fuel : nat) (format : string) : string :=
  match format with
  | EmptyString => EmptyString
  | String c rest =>
      match fuel with
      | O => EmptyString
      | S fuel' =>
          if (c =? percent)%char then
            let '(out, rest') := verb rest in
            (out +:+ doPrintf fuel' rest')%string
          else String c (doPrintf fuel' rest)
      end
  end.

Definition Sprintf (format : string) : string :=
  doPrintf (String.length format) format.

End fmt.

(** ** Go values used by the client *)

(** What a call does: it returns, or the goroutine panics. *)
Inductive outcome (A : Type) : Type :=
  | Returned (a : A)
  | Panicked (msg : string).
Arguments Returned {A} a.
Arguments Panicked {A} msg.

(** [strconv.Itoa]. *)
Definition Itoa (n : Z) : string := DecimalString.NilZero.string_of_int (Z.to_int n).

(** A byte slice: the array it points into, from the slice's first element
    to the end of the array, and its length.  The capacity is the length of
    that array. *)
Module slice.

Record t := Slice { array : list byte; len : nat }.

Definition cap (s : t) : nat := length (array s).

(** The elements of the slice. *)
Definition elems (s : t) : list byte := firstn (len s) (array s).

(** [s[:high]]: for a slice the upper bound is checked against the
    capacity, not the length. *)
Definition upto (high : nat) (s : t) : outcome t :=
  if (high <=? cap s)%nat then Returned (Slice (array s) high)
  else Panicked ("runtime error: slice bounds out of range [:" +:+ Itoa (Z.of_nat high)
                 +:+ "] with capacity " +:+ Itoa (Z.of_nat (cap s)))%string.

End slice.

(** The conversion [[]byte(s)] yields a slice whose elements are the bytes
    of [s]; its capacity "is implementation-specific and may be larger than
    the slice length" (Go specification, Conversions).  [spare s] is what
    the implementation leaves in the array after the bytes of [s]. *)
Class Conversion := { spare : string -> list byte }.

Definition stringtoslicebyte `{conv : Conversion} (s : string) : slice.t :=
  slice.Slice (bytes_of_string s ++ spare s) (String.length s).

(** An implementation that allocates exactly the bytes of the string. *)
Definition exact : Conversion := {| spare := fun _ => [] |}.

(** An implementation that converts into a zeroed 32-byte buffer when the
    string fits, as the gc runtime does ([runtime.stringtoslicebyte] with
    its [tmpBuf]) for a conversion whose result does not escape; a longer
    string is given no spare room here. *)
Definition tmpBuf : Conversion :=
  {| spare := fun s => repeat x00 (32 - String.length s) |}.

(** ** The data model of the package *)

Module CollectionField.
Record t := Make { Name : string; Type_ : string; Facet : bool }.
End CollectionField.

Module CollectionSchema.
Record t := Make
  { Name : string;
    Fields : list CollectionField.t;
    DefaultSortingField : string }.
End CollectionSchema.

Module Collection.
Record t := Make
  { CollectionSchema : CollectionSchema.t;
    NumDocuments : Z;
    CreatedAt : Z }.
End Collection.

Module OverrideDocID.
Record t := Make { ID : string; Position : option Z }.
End OverrideDocID.

Module OverrideRule.
Record t := Make { Match : string; Query : string }.
End OverrideRule.

Module Override.
(** [[]*OverrideDocID] is a list of pointers, each of which may be nil. *)
Record t := Make
  { ID : string;
    Excludes : list (option OverrideDocID.t);
    Includes : list (option OverrideDocID.t);
    Rule : OverrideRule.t }.
End Override.

Definition APIAction := string.

Module APIKey.
Record t := Make
  { Actions : list APIAction;
    Collections : list string;
    Description : string;
    ID : Z;
    Value : string }.
End APIKey.

(** [APIError] and [APIResponse] are declared in a file of the package that
    defines the client; the operations use their [Message] field only. *)
Module APIError.
Record t := Make { Message : string }.
End APIError.

Module APIResponse.
Record t := Make { Message : string }.
End APIResponse.

(** Error values.  The five sentinels are package variables declared with
    the client; [APIError_value e] is an [APIError] used as an error,
    [errors_New text] the result of [errors.New(text)], and [foreign text]
    an error made outside the package (by the transport or by
    [encoding/json]), known by its text. *)
Inductive error : Type :=
  | ErrCollectionNameRequired
  | ErrCollectionFieldsRequired
  | ErrCollectionDuplicate
  | ErrCollectionNotFound
  | ErrUnauthorized
  | APIError_value (e : APIError.t)
  | errors_New (text : string)
  | foreign (text : string).

(** A Go result pair [(value, error)] of which exactly one part is set. *)
Inductive result (A : Type) : Type :=
  | Ok (a : A)
  | Err (e : error).
Arguments Ok {A} a.
Arguments Err {A} e.

Module http.

Definition MethodGet : string := "GET".
Definition MethodPost : string := "POST".
Definition MethodPut : string := "PUT".
Definition MethodDelete : string := "DELETE".

Definition StatusBadRequest : Z := 400.
Definition StatusUnauthorized : Z := 401.
Definition StatusNotFound : Z := 404.
Definition StatusConflict : Z := 409.

Record Request := MkRequest
  { Method : string;
    URL : string;
    Header : list (string * string);
    ReqBody : list byte }.

(** A response as the operations read it: the status code and the body
    stream, of a type [B] that the decoders consume. *)
Record Response (B : Type) := MkResponse { StatusCode : Z; Body : B }.
Arguments MkResponse {B} StatusCode Body.
Arguments StatusCode {B} r.
Arguments Body {B} r.

End http.

Record Node := MkNode
  { Protocol : string; Host : string; Port : string; APIKey_ : string }.

(** The client holds the node configuration; its transport [httpClient] is
    the handler that a program is run against (see [run]). *)
Record Client := MkClient { masterNode : Node }.

(** What the package takes from outside the two source files: the header
    name [defaultHeaderKey], and [encoding/json] on the package's types.
    [json.Marshal] of these types reports no error (they hold strings,
    booleans, integers, slices and pointers to such structs only);
    [Decode] reads the body and fills the value or reports an error. *)
Class Package := {
  ReadCloser : Type;
  defaultHeaderKey : string;
  Marshal_CollectionSchema : CollectionSchema.t -> list byte;
  Marshal_Override : Override.t -> list byte;
  Marshal_keyData : string -> list APIAction -> list string -> list byte;
  Decode_Collection : ReadCloser -> result Collection.t;
  Decode_APIResponse : ReadCloser -> result APIResponse.t;
  Decode_APIError : ReadCloser -> result APIError.t;
  Decode_APIKey : ReadCloser -> result APIKey.t;
  Decode_overrides : ReadCloser -> result (gmap string (list (option Override.t)))
}.

(** ** Programs that call the transport

    An operation either returns or hands a request to [httpClient.Do] and
    goes on with what [Do] gives back: a response or an error. *)
Section Prog.
Context `{pkg : Package}.

Inductive Prog (A : Type) : Type :=
  | Ret (a : A)
  | Do (req : http.Request) (k : result (http.Response ReadCloser) -> Prog A).
Arguments Ret {A} a.
Arguments Do {A} req k.

Fixpoint bind {A B : Type} (p : Prog A) (f : A -> Prog B) : Prog B :=
  match p with
  | Ret a => f a
  | Do req k => Do req (fun r => bind (k r) f)
  end.

(** Running a program against a transport with state [W]: the value
    returned, the final state of the transport and the requests issued, in
    order. *)
Fixpoint run {A W : Type} (p : Prog A)
    (transport : http.Request -> W -> result (http.Response ReadCloser) * W) (w : W)
    : A * W * list http.Request :=
  match p with
  | Ret a => (a, w, [])
  | Do req k =>
      let '(r, w') := transport req w in
      let '(a, w'', reqs) := run (k r) transport w' in
      (a, w'', req :: reqs)
  end.

(** The value a program returns when the transport answers [r] to every
    request (as the mock client of the package's tests does). *)
Fixpoint answer {A : Type} (p : Prog A) (r : result (http.Response ReadCloser)) : A :=
  match p with
  | Ret a => a
  | Do req k => answer (k r) r
  end.

(** The number of calls to the transport on that run. *)
Fixpoint calls {A : Type} (p : Prog A) (r : result (http.Response ReadCloser)) : nat :=
  match p with
  | Ret _ => 0%nat
  | Do req k => S (calls (k r) r)
  end.

End Prog.
Arguments Ret {_ A} a.
Arguments Do {_ A} req k.

Notation "x <- p ;; q" := (bind p (fun x => q))
  (at level 100, p at next level, right associativity).

(** ** The operations *)
Section Operations.
Context `{pkg : Package} `{conv : Conversion}.

Definition collectionsEndpoint : string := "collections".

(** [http.NewRequest(method, url, body)]: a request without headers.  (The
    validation of the method and the URL, whose error the callers in
    [package main] discard, is outside the model.) *)
Definition NewRequest (method url : string) (payload : list byte) : http.Request :=
  http.MkRequest method url [] payload.

(** [req.Header.Add(key, value)]. *)
Definition Header_Add (req : http.Request) (key value : string) : http.Request :=
  http.MkRequest (http.Method req) (http.URL req)
                 (http.Header req ++ [(key, value)]) (http.ReqBody req).

(** Modelled from the spec: [apiCall], the request helper of the client,
    is not in the source files.  It "attaches the configured API key as a
    fixed header", carries the serialized payload as the body, "issues the
    HTTP call through the transport collaborator", and hands back the
    response or the transport's failure unchanged. *)
Definition apiCall (c : Client) (method url : string) (payload : list byte)
    : Prog (result (http.Response ReadCloser)) :=
  let req := NewRequest method url payload in
  let req := Header_Add req defaultHeaderKey (APIKey_ (masterNode c)) in
  Do req Ret.

(** [fmt.Sprintf("%s://%s:%s/%s", protocol, host, port, path)]. *)
Definition endpoint (c : Client) (path : string) : string :=
  (Protocol (masterNode c) +:+ "://" +:+ Host (masterNode c) +:+ ":" +:+
   Port (masterNode c) +:+ "/" +:+ path)%string.

(** collections.go *)

Definition CreateCollection (c : Client) (collectionSchema : CollectionSchema.t)
    : Prog (result Collection.t) :=
  if String.eqb (CollectionSchema.Name collectionSchema) "" then
    Ret (Err ErrCollectionNameRequired)
  else if (length (CollectionSchema.Fields collectionSchema) =? 0)%nat then
    Ret (Err ErrCollectionFieldsRequired)
  else
    let method := http.MethodPost in
    let url := endpoint c collectionsEndpoint in
    let collectionJSON := Marshal_CollectionSchema collectionSchema in
    r <- apiCall c method url collectionJSON ;;
    match r with
    | Err err => Ret (Err err)
    | Ok resp =>
        if http.StatusCode resp =? http.StatusConflict then
          Ret (Err ErrCollectionDuplicate)
        else if http.StatusCode resp =? http.StatusUnauthorized then
          Ret (Err ErrUnauthorized)
        else if http.StatusCode resp =? http.StatusBadRequest then
          match Decode_APIResponse (http.Body resp) with
          | Err err => Ret (Err err)
          | Ok apiResponse => Ret (Err (errors_New (APIResponse.Message apiResponse)))
          end
        else
          match Decode_Collection (http.Body resp) with
          | Err err => Ret (Err err)
          | Ok collectionResponse => Ret (Ok collectionResponse)
          end
    end.

Definition RetrieveCollection (c : Client) (collectionName : string)
    : Prog (result Collection.t) :=
  let method := http.MethodGet in
  let url := endpoint c (collectionsEndpoint +:+ "/" +:+ collectionName)%string in
  r <- apiCall c method url [] ;;
  match r with
  | Err err => Ret (Err err)
  | Ok resp =>
      if http.StatusCode resp =? http.StatusNotFound then
        Ret (Err ErrCollectionNotFound)
      else if http.StatusCode resp =? http.StatusUnauthorized then
        Ret (Err ErrUnauthorized)
      else
        match Decode_Collection (http.Body resp) with
        | Err err => Ret (Err err)
        | Ok collection => Ret (Ok collection)
        end
  end.

Definition DeleteCollection (c : Client) (collectionName : string)
    : Prog (result Collection.t) :=
  let method := http.MethodDelete in
  let url := endpoint c (collectionsEndpoint +:+ "/" +:+ collectionName)%string in
  r <- apiCall c method url [] ;;
  match r with
  | Err err => Ret (Err err)
  | Ok resp =>
      if http.StatusCode resp =? http.StatusNotFound then
        Ret (Err ErrCollectionNotFound)
      else if http.StatusCode resp =? http.StatusUnauthorized then
        Ret (Err ErrUnauthorized)
      else
        match Decode_Collection (http.Body resp) with
        | Err err => Ret (Err err)
        | Ok collection => Ret (Ok collection)
        end
  end.

(** [json.Marshal(v)] with the encoder of [v]'s type: the bytes and a nil
    error. *)
Definition json_Marshal {T : Type} (encode : T -> list byte) (v : T)
    : list byte * option error :=
  (encode v, None).

Definition OverrideCollection (c : Client) (collectionName : string)
    (overrideCfg : Override.t) : Prog (option error) :=
  let method := http.MethodPut in
  let url := endpoint c (collectionsEndpoint +:+ "/" +:+ collectionName +:+
                         "/overrides/" +:+ Override.ID overrideCfg)%string in
  let '(overrideBody, err) := json_Marshal Marshal_Override overrideCfg in
  match err with
  | Some err => Ret (Some err)
  | None =>
      r <- apiCall c method url overrideBody ;;
      match r with
      | Err err => Ret (Some err)
      | Ok resp =>
          if http.StatusCode resp =? http.StatusNotFound then Ret (Some ErrCollectionNotFound)
          else if http.StatusCode resp =? http.StatusUnauthorized then Ret (Some ErrUnauthorized)
          else Ret None
      end
  end.

Definition RetrieveOverrides (c : Client) (collectionName : string)
    : Prog (result (list (option Override.t))) :=
  let method := http.MethodGet in
  let url := endpoint c (collectionsEndpoint +:+ "/" +:+ collectionName +:+
                         "/overrides")%string in
  r <- apiCall c method url [] ;;
  match r with
  | Err err => Ret (Err err)
  | Ok resp =>
      if http.StatusCode resp =? http.StatusNotFound then
        Ret (Err ErrCollectionNotFound)
      else if http.StatusCode resp =? http.StatusUnauthorized then
        Ret (Err ErrUnauthorized)
      else
        match Decode_overrides (http.Body resp) with
        | Err err => Ret (Err err)
        | Ok resBody =>
            match resBody !! "overrides" with
            | Some overrides => Ret (Ok overrides)
            | None => Ret (Err (errors_New "response did not return a list of overrides"))
            end
        end
  end.

Definition DeleteOverride (c : Client) (collectionName id : string)
    : Prog (option error) :=
  let method := http.MethodDelete in
  let url := endpoint c (collectionsEndpoint +:+ "/" +:+ collectionName +:+
                         "/overrides/" +:+ id)%string in
  r <- apiCall c method url [] ;;
  match r with
  | Err err => Ret (Some err)
  | Ok resp =>
      if http.StatusCode resp =? http.StatusNotFound then Ret (Some ErrCollectionNotFound)
      else if http.StatusCode resp =? http.StatusUnauthorized then Ret (Some ErrUnauthorized)
      else Ret None
  end.

(** apikey.go *)

Definition CreateAPIKey (c : Client) (description : string)
    (actions : list APIAction) (collections : list string) : Prog (result APIKey.t) :=
  let payload := Marshal_keyData description actions collections in
  let url := endpoint c "keys" in
  r <- apiCall c http.MethodPost url payload ;;
  match r with
  | Err err => Ret (Err err)
  | Ok res =>
      if http.StatusCode res =? http.StatusBadRequest then
        match Decode_APIError (http.Body res) with
        | Err _ => Ret (Err (APIError_value (APIError.Make "bad request")))
        | Ok apiError => Ret (Err (APIError_value apiError))
        end
      else if http.StatusCode res =? http.StatusUnauthorized then
        Ret (Err ErrUnauthorized)
      else
        match Decode_APIKey (http.Body res) with
        | Err err => Ret (Err err)
        | Ok apiKey => Ret (Ok apiKey)
        end
  end.

Definition DeleteAPIKey (c : Client) (id : Z) : Prog (option error) :=
  let url := endpoint c ("keys/" +:+ Itoa id)%string in
  r <- apiCall c http.MethodDelete url [] ;;
  match r with
  | Err err => Ret (Some err)
  | Ok res =>
      if http.StatusCode res =? http.StatusUnauthorized then Ret (Some ErrUnauthorized)
      else Ret None
  end.

Definition GenerateScopedSearchKey (c : Client) (searchKey : string)
    (options : option (gmap string string)) : outcome string :=
  let h := hmac.New (slice.elems (stringtoslicebyte searchKey)) in
  let j := json.Marshal options in
  let '(h, (_, err)) := hmac.Write (E := error) h j in
  match err with
  | Some _ => Returned EmptyString
  | None =>
      match slice.upto 4 (stringtoslicebyte searchKey) with
      | Panicked msg => Panicked msg
      | Returned keyPrefix =>
          let digest := base64.EncodeToString (hmac.Sum h) in
          let rawScopedKey :=
            fmt.Sprintf (digest +:+ string_of_bytes (slice.elems keyPrefix)
                         +:+ string_of_bytes j)%string in
          Returned (base64.EncodeToString (bytes_of_string rawScopedKey))
      end
  end.

End Operations.

(** The variant of [RetrieveCollection] and [DeleteCollection] in
    [package main]: the request is built in place and given to
    [c.httpClient.Do]. *)
Module main.
Section Operations.
Context `{pkg : Package}.

Definition RetrieveCollection (c : Client) (collectionName : string)
    : Prog (result Collection.t) :=
  let method := http.MethodGet in
  let url := endpoint c (collectionsEndpoint +:+ "/" +:+ collectionName)%string in
  let req := NewRequest method url [] in
  let req := Header_Add req defaultHeaderKey (APIKey_ (masterNode c)) in
  r <- Do req Ret ;;
  match r with
  | Err err => Ret (Err err)
  | Ok resp =>
      if http.StatusCode resp =? http.StatusNotFound then
        Ret (Err ErrCollectionNotFound)
      else
        match Decode_Collection (http.Body resp) with
        | Err err => Ret (Err err)
        | Ok collection => Ret (Ok collection)
        end
  end.

Definition DeleteCollection (c : Client) (collectionName : string)
    : Prog (result Collection.t) :=
  let method := http.MethodDelete in
  let url := endpoint c (collectionsEndpoint +:+ "/" +:+ collectionName)%string in
  let req := NewRequest method url [] in
  let req := Header_Add req defaultHeaderKey (APIKey_ (masterNode c)) in
  r <- Do req Ret ;;
  match r with
  | Err err => Ret (Err err)
  | Ok resp =>
      if http.StatusCode resp =? http.StatusNotFound then
        Ret (Err ErrCollectionNotFound)
      else
        match Decode_Collection (http.Body resp) with
        | Err err => Ret (Err err)
        | Ok collection => Ret (Ok collection)
        end
  end.

End Operations.
End main.

(** ** The token as the specification words it

    "Concatenates, in order: (digest base64 string) + (4-byte prefix,
    interpreted as raw bytes, not re-encoded) + (raw JSON bytes of the
    parameter mapping)", then "Base64-encodes that concatenated byte
    sequence". *)
Definition hmac_sha256 (key msg : list byte) : list byte :=
  hmac.Sum (fst (hmac.Write (E := error) (hmac.New key) msg)).

Definition scoped_key_layout (searchKey : string)
    (options : option (gmap string string)) : string :=
  let j := json.Marshal options in
  let digest := base64.EncodeToString (hmac_sha256 (bytes_of_string searchKey) j) in
  base64.EncodeToString
    (bytes_of_string digest ++ firstn 4 (bytes_of_string searchKey) ++ j).

(** No byte of the string is a percent sign. *)
Fixpoint no_percent (s : string) : bool :=
  match s with
  | EmptyString => true
  | String c r => negb (c =? fmt.percent)%char && no_percent r
  end.

(** The character of the base64 alphabet at an index. *)
Definition enc_at (n : nat) : ascii :=
  match String.get n base64.encodeStd with
  | Some c => c
  | None => base64.StdPadding
  end.

(** The raw scoped key before [fmt.Sprintf] reads it as a format. *)
Definition rawFormat `{conv : Conversion} (searchKey : string)
    (options : option (gmap string string)) : string :=
  (base64.EncodeToString (hmac_sha256 (bytes_of_string searchKey) (json.Marshal options))
   +:+ string_of_bytes (firstn 4 (bytes_of_string searchKey ++ spare searchKey))
   +:+ string_of_bytes (json.Marshal options))%string.

(** ** Test doubles

    The bodies that the package's tests hand to the client, with what
    [encoding/json] makes of each of them for each target type, and a
    transport that records the requests it is given.  The theorems are
    stated for every [Package]; the doubles serve to run them. *)
Module double.

(** [Empty] is [bytes.NewReader(nil)], [Object] the text of an object
    without members, [Message m] an object whose only member is "message"
    with the string [m], [ACollection c] a text that decodes to the
    collection [c] (the tests make it with [json.Marshal]), [Overrides l]
    an object whose only member is "overrides" with the list [l]. *)
Inductive Body : Type :=
  | Empty
  | Object
  | Message (m : string)
  | ACollection (c : Collection.t)
  | Overrides (l : list (option Override.t)).

Definition EOF : error := foreign "EOF".

Definition mismatch : error :=
  foreign "json: cannot unmarshal string into Go value of type []*typesense.Override".

Definition zeroCollection : Collection.t :=
  Collection.Make (CollectionSchema.Make "" [] "") 0 0.

Definition zeroAPIKey : APIKey.t := APIKey.Make [] [] "" 0 "".

(** An object member that matches no field of the target is skipped, a
    string where the target wants a list is a type error, and an empty
    stream is [io.EOF].  The mock transport never reads a request, so the
    encoders of the double write nothing. *)
#[global] Instance package : Package := {|
  ReadCloser := Body;
  defaultHeaderKey := "X-TYPESENSE-API-KEY";
  Marshal_CollectionSchema := fun _ => [];
  Marshal_Override := fun _ => [];
  Marshal_keyData := fun _ _ _ => [];
  Decode_Collection := fun b =>
    match b with
    | Empty => Err EOF
    | ACollection c => Ok c
    | _ => Ok zeroCollection
    end;
  Decode_APIResponse := fun b =>
    match b with
    | Empty => Err EOF
    | Message m => Ok (APIResponse.Make m)
    | _ => Ok (APIResponse.Make "")
    end;
  Decode_APIError := fun b =>
    match b with
    | Empty => Err EOF
    | Message m => Ok (APIError.Make m)
    | _ => Ok (APIError.Make "")
    end;
  Decode_APIKey := fun b =>
    match b with
    | Empty => Err EOF
    | _ => Ok zeroAPIKey
    end;
  Decode_overrides := fun b =>
    match b with
    | Empty => Err EOF
    | Object => Ok ∅
    | Overrides l => Ok {[ "overrides" := l ]}
    | Message _ | ACollection _ => Err mismatch
    end
|}.

(** [mockClient] with a [DoFunc] that answers [r] whatever the request;
    its state is the list of the requests seen, latest first. *)
Definition mockClient (r : result (http.Response Body))
    (req : http.Request) (seen : list http.Request)
    : result (http.Response Body) * list http.Request :=
  (r, req :: seen).

Definition testMasterNode : Node := MkNode "http" "localhost" "8108" "xyz".

Definition client : Client := MkClient testMasterNode.

Definition testCollectionSchema : CollectionSchema.t :=
  CollectionSchema.Make "companies" [CollectionField.Make "name" "string" false] "".

Definition testCollection : Collection.t := Collection.Make testCollectionSchema 0 0.

Definition testOverride : Override.t :=
  Override.Make "customize-apple" [] [] (OverrideRule.Make "exact" "apple").

End double.

(** ** The operations that decode a list

    [RetrieveCollections], [APIKey] and [APIKeys] need [encoding/json] on
    two more targets, [[]*Collection] and [[]*APIKey]: lists of pointers,
    each of which may be nil. *)
Class Lists `{pkg : Package} := {
  Decode_Collections : ReadCloser -> result (list (option Collection.t));
  Decode_APIKeys : ReadCloser -> result (list (option APIKey.t))
}.

Section ListOperations.
Context `{pkg : Package} `{lists : !Lists}.

(** collections.go *)
Definition RetrieveCollections (c : Client) : Prog (result (list (option Collection.t))) :=
  let method := http.MethodGet in
  let url := endpoint c collectionsEndpoint in
  r <- apiCall c method url [] ;;
  match r with
  | Err err => Ret (Err err)
  | Ok resp =>
      if http.StatusCode resp =? http.StatusUnauthorized then
        Ret (Err ErrUnauthorized)
      else
        match Decode_Collections (http.Body resp) with
        | Err err => Ret (Err err)
        | Ok collections => Ret (Ok collections)
        end
  end.

(** apikey.go: the method [APIKey] of the client, named after what it
    does since the name is the type's. *)
Definition RetrieveAPIKey (c : Client) (id : Z) : Prog (result APIKey.t) :=
  let url := endpoint c ("keys/" +:+ Itoa id)%string in
  r <- apiCall c http.MethodGet url [] ;;
  match r with
  | Err err => Ret (Err err)
  | Ok res =>
      if http.StatusCode res =? http.StatusUnauthorized then
        Ret (Err ErrUnauthorized)
      else
        match Decode_APIKey (http.Body res) with
        | Err err => Ret (Err err)
        | Ok apiKey => Ret (Ok apiKey)
        end
  end.

Definition APIKeys (c : Client) : Prog (result (list (option APIKey.t))) :=
  let url := endpoint c "keys" in
  r <- apiCall c http.MethodGet url [] ;;
  match r with
  | Err err => Ret (Err err)
  | Ok res =>
      if http.StatusCode res =? http.StatusUnauthorized then
        Ret (Err ErrUnauthorized)
      else
        match Decode_APIKeys (http.Body res) with
        | Err err => Ret (Err err)
        | Ok apiKeys => Ret (Ok apiKeys)
        end
  end.

End ListOperations.

(** The request a program starts with, if it calls the transport. *)
Definition first_request `{pkg : Package} {A : Type} (p : Prog A) : option http.Request :=
  match p with
  | Ret _ => None
  | Do req _ => Some req
  end.

(** ** Test doubles for the list operations

    [Nothing] is [bytes.NewReader(nil)], [Keys l] the text that
    [json.Marshal] makes of the key list [l], [Collections l] the same for
    a list of collections, [AKey k] the text of the key [k]. *)
Module listdouble.

Inductive Body : Type :=
  | Nothing
  | AKey (k : APIKey.t)
  | Keys (l : list (option APIKey.t))
  | Collections (l : list (option Collection.t)).

(** The text of [UnmarshalTypeError]. *)
Definition type_error (value type : string) : error :=
  foreign ("json: cannot unmarshal " +:+ value +:+ " into Go value of type " +:+ type)%string.

(** A JSON array does not decode into a struct or a map, nor an object
    into a slice; an array of objects decodes into any slice of struct
    pointers, members without a matching field being skipped and a null
    element staying a nil pointer.  A key decoded as a map of override
    lists fails at its first string: an action, a collection name or the
    description. *)
Definition package : Package := {|
  ReadCloser := Body;
  defaultHeaderKey := "X-TYPESENSE-API-KEY";
  Marshal_CollectionSchema := fun _ => [];
  Marshal_Override := fun _ => [];
  Marshal_keyData := fun _ _ _ => [];
  Decode_Collection := fun b =>
    match b with
    | Nothing => Err double.EOF
    | AKey _ => Ok double.zeroCollection
    | _ => Err (type_error "array" "typesense.Collection")
    end;
  Decode_APIResponse := fun b =>
    match b with
    | Nothing => Err double.EOF
    | AKey _ => Ok (APIResponse.Make "")
    | _ => Err (type_error "array" "typesense.APIResponse")
    end;
  Decode_APIError := fun b =>
    match b with
    | Nothing => Err double.EOF
    | AKey _ => Ok (APIError.Make "")
    | _ => Err (type_error "array" "typesense.APIError")
    end;
  Decode_APIKey := fun b =>
    match b with
    | Nothing => Err double.EOF
    | AKey k => Ok k
    | _ => Err (type_error "array" "typesense.APIKey")
    end;
  Decode_overrides := fun b =>
    match b with
    | Nothing => Err double.EOF
    | AKey k =>
        match APIKey.Actions k, APIKey.Collections k with
        | [], [] => Err (type_error "string" "[]*typesense.Override")
        | _, _ => Err (type_error "string" "typesense.Override")
        end
    | _ => Err (type_error "array" "map[string][]*typesense.Override")
    end
|}.

Definition lists : @Lists package := {|
  Decode_Collections := fun b : @ReadCloser package =>
    match b with
    | Nothing => Err double.EOF
    | AKey _ => Err (type_error "object" "[]*typesense.Collection")
    | Keys l => Ok (map (option_map (fun _ => double.zeroCollection)) l)
    | Collections l => Ok l
    end;
  Decode_APIKeys := fun b : @ReadCloser package =>
    match b with
    | Nothing => Err double.EOF
    | AKey _ => Err (type_error "object" "[]*typesense.APIKey")
    | Keys l => Ok l
    | Collections l => Ok (map (option_map (fun _ => double.zeroAPIKey)) l)
    end
|}.

Definition apiKey : APIKey.t :=
  APIKey.Make ["documents:*"; "collections:create"] ["companies"] "API key" 1 "apikey".

End listdouble.

(** ** Percent signs

    What the statements about [fmt.Sprintf] and [json.Marshal] speak of. *)

(** The notes that [fmt] writes for an asterisk that finds no operand. *)
Definition BADWIDTH : string := "%!(BADWIDTH)".
Definition BADPREC : string := "%!(BADPREC)".

(** The first [n] bytes of [s] (those there are) are not ASCII. *)
Fixpoint high_prefix (n : nat) (s : string) : bool :=
  match n, s with
  | S k, String c r => (128 <=? utf8.code c) && high_prefix k r
  | _, _ => true
  end.

(** Neither the key nor the value of an entry holds a percent sign. *)
Definition entry_no_percent (kv : string * string) : bool :=
  no_percent (fst kv) && no_percent (snd kv).

(** The parameter mapping is written without a percent sign: a nil map,
    or a map whose keys and values hold none. *)
Definition options_no_percent (options : option (gmap string string)) : Prop :=
  match options with
  | None => True
  | Some m => forall k v, m !! k = Some v -> no_percent k = true /\ no_percent v = true
  end.

(** ** Proof steps for the operations *)

(** Turns the disequalities on status codes into boolean tests. *)
Ltac status_neq :=
  repeat match goal with
         | H : http.StatusCode _ <> _ |- _ => apply Z.eqb_neq in H
         end.

(** Runs an operation on the answer at hand and rewrites the status code. *)
Ltac step_op :=
  cbn [bind answer calls];
  repeat match goal with
         | H : http.StatusCode ?r = _ |- context [http.StatusCode ?r] => rewrite H
         | H : (http.StatusCode ?r =? _) = _ |- context [http.StatusCode ?r =? _] => rewrite H
         end.

(** * Properties *)

(** ** Test vectors of the library models *)

Example sha256_abc :
  hex_of_bytes (sha256.Sum256 (bytes_of_string "abc"))
  = "ba7816bf8f01cfea414140de5dae2223b00361a396177a9cb410ff61f20015ad".
Proof. vm_compute. reflexivity. Qed.

Example sha256_empty :
  hex_of_bytes (sha256.Sum256 [])
  = "e3b0c44298fc1c149afbf4c8996fb92427ae41e4649b934ca495991b7852b855".
Proof. vm_compute. reflexivity. Qed.

Example hmac_rfc4231_2 :
  hex_of_bytes (hmac.Sum (fst (hmac.Write (E:=unit) (hmac.New (bytes_of_string "Jefe"))
                                 (bytes_of_string "what do ya want for nothing?"))))
  = "5bdcc146bf60754e6a042426089575c75a003f089d2739839dec58b964ec3843".
Proof. vm_compute. reflexivity. Qed.

Example base64_vectors :
  map (fun s => base64.EncodeToString (bytes_of_string s)) ["f"; "fo"; "foo"; "foob"]
  = ["Zg=="; "Zm8="; "Zm9v"; "Zm9vYg=="].
Proof. vm_compute. reflexivity. Qed.

(** [json.Marshal] of a nil map, of an empty map, and of a map whose keys
    come out sorted and whose values need escapes: a line feed, an invalid
    byte, and the three characters escaped for HTML. *)
Example Marshal_vectors :
  let q := String json.dquote EmptyString in
  let b := String json.backslash EmptyString in
  json.Marshal None = bytes_of_string "null" /\
  json.Marshal (Some ∅) = bytes_of_string "{}" /\
  string_of_bytes
    (json.Marshal (Some (<["b" := "<a&b>"]>
                           (<["a" := String "010" (String "255" "x")]>
                              (<["B" := "x"]> ∅)))))
  = ("{" +:+ q +:+ "B" +:+ q +:+ ":" +:+ q +:+ "x" +:+ q +:+ "," +:+
     q +:+ "a" +:+ q +:+ ":" +:+ q +:+ b +:+ "n" +:+ b +:+ "ufffdx" +:+ q +:+ "," +:+
     q +:+ "b" +:+ q +:+ ":" +:+ q +:+ b +:+ "u003ca" +:+ b +:+ "u0026b" +:+ b +:+ "u003e"
     +:+ q +:+ "}")%string.
Proof. vm_compute. repeat split; reflexivity. Qed.

Example Sprintf_vectors :
  map fmt.Sprintf ["abc"; "100%"; "a%%b"; "%d x"; "%[1]d"; "%[x"; "%5.2f"; "%*d"; "%.*d";
                   "%-08[2]*.[3]*[1]z"; "%99999999999d"; "% é"; "%[1]%" ]%string
  = ["abc"; "100%!(NOVERB)"; "a%b"; "%!d(MISSING) x"; "%!d(BADINDEX)"; "%!x(BADINDEX)";
     "%!f(MISSING)"; "%!(BADWIDTH)%!d(MISSING)"; "%!(BADPREC)%!d(MISSING)";
     "%!*(BADINDEX).[3]*[1]z"; "%!(NOVERB)"; "%!é(MISSING)"; "%"]%string.
Proof. vm_compute. reflexivity. Qed.

(** ** Strings and bytes *)

Lemma bytes_of_string_length (s : string) :
  length (bytes_of_string s) = String.length s.
Proof.
  unfold bytes_of_string. induction s as [|c s IH]; [reflexivity|].
  change (S (length (list_byte_of_string s)) = S (String.length s)).
  now f_equal.
Qed.

Lemma bytes_of_string_app (s t : string) :
  bytes_of_string (s +:+ t) = bytes_of_string s ++ bytes_of_string t.
Proof.
  unfold bytes_of_string. induction s as [|c s IH]; [reflexivity|].
  change (byte_of_ascii c :: list_byte_of_string (s +:+ t)
          = byte_of_ascii c :: (list_byte_of_string s ++ list_byte_of_string t)).
  now f_equal.
Qed.

Lemma bytes_of_string_of_bytes (l : list byte) :
  bytes_of_string (string_of_bytes l) = l.
Proof. apply list_byte_of_string_of_list_byte. Qed.

Lemma string_of_bytes_of_string (s : string) :
  string_of_bytes (bytes_of_string s) = s.
Proof. apply string_of_list_byte_of_string. Qed.

Lemma no_percent_app (s t : string) :
  no_percent (s +:+ t) = no_percent s && no_percent t.
Proof.
  induction s as [|c s IH]; simpl; [reflexivity|].
  rewrite IH. now rewrite andb_assoc.
Qed.

(** ** base64 *)

Lemma enc_not_percent (i : Z) : (base64.enc i =? fmt.percent)%char = false.
Proof.
  unfold base64.enc. fold (enc_at (Z.to_nat (Z.land i 63))).
  assert (Hr : 0 <= Z.land i 63 < 64).
  { change 63 with (Z.ones 6). rewrite Z.land_ones by lia.
    apply Z.mod_pos_bound. lia. }
  assert (Hall : forallb (fun n => negb (enc_at n =? fmt.percent)%char) (seq 0 64) = true)
    by (vm_compute; reflexivity).
  rewrite forallb_forall in Hall.
  specialize (Hall (Z.to_nat (Z.land i 63))).
  apply negb_true_iff, Hall, in_seq. lia.
Qed.

Lemma Encode_no_percent (l : list byte) : no_percent (base64.Encode l) = true.
Proof.
  assert (Hgen : forall n (l : list byte), (length l <= n)%nat ->
                 no_percent (base64.Encode l) = true).
  { clear l. induction n as [|n IH]; intros l Hl.
    - destruct l; [reflexivity | simpl in Hl; lia].
    - destruct l as [|b0 [|b1 [|b2 rest]]];
        cbn [base64.Encode no_percent]; rewrite ?enc_not_percent;
        cbn [negb andb]; try reflexivity.
      apply IH. cbn [length] in Hl. lia. }
  apply (Hgen (length l)). lia.
Qed.

Lemma Encode_nonempty (b : byte) (l : list byte) : base64.Encode (b :: l) <> EmptyString.
Proof. destruct l as [|b1 [|b2 rest]]; cbn [base64.Encode]; discriminate. Qed.

(** ** fmt.Sprintf *)

(** A format without a percent sign is written as it stands. *)
Lemma doPrintf_no_percent (s : string) (fuel : nat) :
  (String.length s <= fuel)%nat -> no_percent s = true -> fmt.doPrintf fuel s = s.
Proof.
  revert fuel. induction s as [|c s IH]; intros fuel Hf Hs.
  - destruct fuel; reflexivity.
  - destruct fuel as [|fuel]; [simpl in Hf; lia|].
    simpl in Hs. apply andb_true_iff in Hs as [Hc Hs]. apply negb_true_iff in Hc.
    simpl. rewrite Hc. f_equal. apply IH; [simpl in Hf; lia | assumption].
Qed.

Lemma Sprintf_no_percent (s : string) : no_percent s = true -> fmt.Sprintf s = s.
Proof. intros Hs. unfold fmt.Sprintf. now apply doPrintf_no_percent. Qed.

(** Whatever follows, the text before the first percent sign is kept. *)
Lemma Sprintf_head (c : ascii) (s : string) :
  (c =? fmt.percent)%char = false ->
  fmt.Sprintf (String c s) = String c (fmt.doPrintf (String.length s) s).
Proof. intros Hc. unfold fmt.Sprintf. simpl. now rewrite Hc. Qed.

(** The text left after a verb is part of the text before it. *)
Lemma string_drop_length (n : nat) (s : string) :
  (String.length (string_drop n s) <= String.length s)%nat.
Proof.
  revert s. induction n as [|n IH]; intros [|c s]; simpl; try lia.
  specialize (IH s). lia.
Qed.

Lemma skip_flags_length (s : string) :
  (String.length (fmt.skip_flags s) <= String.length s)%nat.
Proof.
  induction s as [|c s IH]; simpl; [lia|].
  destruct (fmt.is_flag c); simpl; lia.
Qed.

Lemma parsenum_length (s : string) (num : Z) (isnum : bool) :
  (String.length (snd (fmt.parsenum s num isnum)) <= String.length s)%nat.
Proof.
  revert num isnum. induction s as [|c s IH]; intros num isnum; simpl; [lia|].
  destruct (fmt.is_digit c); simpl; [|lia].
  destruct (fmt.tooLarge num); simpl; [lia|].
  specialize (IH (num * 10 + (utf8.code c - 48)) true). lia.
Qed.

Lemma argNumber_length (good : bool) (s : string) :
  (String.length (fst (fst (fmt.argNumber good s))) <= String.length s)%nat.
Proof.
  unfold fmt.argNumber. destruct s as [|c s]; [simpl; lia|].
  destruct (c =? "[")%char; [|simpl; lia].
  destruct (fmt.parseArgNumber (String c s)) as [[index wid] ok]. cbn [fst].
  apply string_drop_length.
Qed.

Lemma width_length (a g : bool) (s : string) :
  (String.length (snd (fst (fst (fmt.width a g s)))) <= String.length s)%nat.
Proof.
  unfold fmt.width. destruct (fmt.starts_with "*" s); cbn [fst snd].
  - apply string_drop_length.
  - pose proof (parsenum_length s 0 false) as Hp.
    destruct (fmt.parsenum s 0 false) as [[n w] t]. exact Hp.
Qed.

Lemma precision_length (a g : bool) (s : string) :
  (String.length (snd (fst (fst (fmt.precision a g s)))) <= String.length s)%nat.
Proof.
  unfold fmt.precision. destruct (fmt.starts_with "." s); cbn [fst snd]; [|lia].
  pose proof (string_drop_length 1 s) as Hd.
  pose proof (argNumber_length (if a then false else g) (string_drop 1 s)) as Ha.
  destruct (fmt.argNumber _ (string_drop 1 s)) as [[t a'] g']. cbn [fst] in Ha.
  destruct (fmt.starts_with "*" t); cbn [fst snd].
  - pose proof (string_drop_length 1 t). lia.
  - pose proof (parsenum_length t 0 false) as Hp.
    destruct (fmt.parsenum t 0 false) as [[n w] u]. cbn [fst snd] in *. lia.
Qed.

Lemma operand_length (g : bool) (s : string) :
  (String.length (snd (fmt.operand g s)) <= String.length s)%nat.
Proof.
  unfold fmt.operand. destruct s as [|c s]; [simpl; lia|].
  destruct (if utf8.code c <? 128 then _ else _) as [v size].
  pose proof (string_drop_length size (String c s)).
  destruct (v =? utf8.code fmt.percent); [assumption|].
  destruct (negb g); assumption.
Qed.

Lemma verb_length (s : string) :
  (String.length (snd (fmt.verb s)) <= String.length s)%nat.
Proof.
  unfold fmt.verb.
  pose proof (skip_flags_length s) as H0.
  pose proof (argNumber_length true (fmt.skip_flags s)) as H1.
  destruct (fmt.argNumber true (fmt.skip_flags s)) as [[s1 a1] g1]. cbn [fst] in H1.
  pose proof (width_length a1 g1 s1) as H2.
  destruct (fmt.width a1 g1 s1) as [[[o2 s2] a2] g2]. cbn [fst snd] in H2.
  pose proof (precision_length a2 g2 s2) as H3.
  destruct (fmt.precision a2 g2 s2) as [[[o3 s3] a3] g3]. cbn [fst snd] in H3.
  assert (H4 : (String.length (fst (fst (if a3 then (s3, a3, g3) else fmt.argNumber g3 s3)))
                <= String.length s3)%nat).
  { destruct a3; [cbn [fst]; lia | apply argNumber_length]. }
  destruct (if a3 then (s3, a3, g3) else fmt.argNumber g3 s3) as [[s4 a4] g4].
  cbn [fst] in H4.
  pose proof (operand_length g4 s4) as H5.
  destruct (fmt.operand g4 s4) as [o5 s5]. cbn [snd] in *. lia.
Qed.

(** Fuel beyond the length of the format changes nothing: the loop never
    stops for want of fuel. *)
Lemma doPrintf_fuel (n : nat) :
  forall (s : string) (m1 m2 : nat),
    (String.length s <= n)%nat -> (String.length s <= m1)%nat ->
    (String.length s <= m2)%nat -> fmt.doPrintf m1 s = fmt.doPrintf m2 s.
Proof.
  induction n as [|n IH]; intros s m1 m2 Hn H1 H2.
  - destruct s; [destruct m1, m2; reflexivity | simpl in Hn; lia].
  - destruct s as [|c s]; [destruct m1, m2; reflexivity|].
    simpl in Hn, H1, H2.
    destruct m1 as [|m1]; [lia|]. destruct m2 as [|m2]; [lia|].
    cbn [fmt.doPrintf]. destruct (c =? fmt.percent)%char.
    + pose proof (verb_length s) as Hv.
      destruct (fmt.verb s) as [out rest]. cbn [snd] in Hv.
      f_equal. apply IH; lia.
    + f_equal. apply IH; lia.
Qed.

Lemma Sprintf_fuel (s : string) (fuel : nat) :
  (String.length s <= fuel)%nat -> fmt.doPrintf fuel s = fmt.Sprintf s.
Proof.
  intros Hf. unfold fmt.Sprintf. apply (doPrintf_fuel (String.length s)); lia.
Qed.

(** [Sprintf] distributes over a chunk without a percent sign. *)
Lemma Sprintf_app_no_percent (s t : string) :
  no_percent s = true -> fmt.Sprintf (s +:+ t) = (s +:+ fmt.Sprintf t)%string.
Proof.
  intros Hs. induction s as [|c s IH]; [reflexivity|].
  simpl in Hs. apply andb_true_iff in Hs as [Hc Hs]. apply negb_true_iff in Hc.
  change (String c s +:+ t)%string with (String c (s +:+ t)).
  unfold fmt.Sprintf at 1. cbn [String.length fmt.doPrintf]. rewrite Hc.
  change (String c s +:+ fmt.Sprintf t)%string with (String c (s +:+ fmt.Sprintf t)).
  f_equal. apply IH, Hs.
Qed.

(** ** sha256 and hmac *)

Lemma Sum256_cons (data : list byte) : exists b l, sha256.Sum256 data = b :: l.
Proof.
  unfold sha256.Sum256.
  destruct (sha256.blocks _ _ _) as [a b c d e f g h].
  unfold sha256.be_bytes. cbn [seq rev app map]. eauto.
Qed.

(** [h.Write] reports no error, whatever is written. *)
Lemma hmac_Write_no_error (h : hmac.t) (p : list byte) :
  snd (snd (hmac.Write (E := error) h p)) = None.
Proof. reflexivity. Qed.

Lemma Encode_cons (b : byte) (l : list byte) :
  exists i s, base64.Encode (b :: l) = String (base64.enc i) s.
Proof. destruct l as [|b1 [|b2 rest]]; cbn [base64.Encode]; eauto. Qed.

(** ** GenerateScopedSearchKey *)
Section ScopedKey.
Context `{conv : Conversion}.

Lemma elems_stringtoslicebyte (s : string) :
  slice.elems (stringtoslicebyte s) = bytes_of_string s.
Proof.
  unfold slice.elems, stringtoslicebyte. cbn [slice.len slice.array].
  rewrite <- bytes_of_string_length.
  rewrite firstn_app, Nat.sub_diag, firstn_all. cbn [firstn]. apply app_nil_r.
Qed.

Lemma cap_stringtoslicebyte (s : string) :
  slice.cap (stringtoslicebyte s) = (String.length s + length (spare s))%nat.
Proof.
  unfold slice.cap, stringtoslicebyte. cbn [slice.array].
  now rewrite length_app, bytes_of_string_length.
Qed.

(** The function, one case for each outcome of the slice expression. *)
Lemma GenerateScopedSearchKey_returns (c : Client) (searchKey : string)
    (options : option (gmap string string)) :
  (4 <= slice.cap (stringtoslicebyte searchKey))%nat ->
  GenerateScopedSearchKey c searchKey options
  = Returned (base64.EncodeToString
                (bytes_of_string (fmt.Sprintf (rawFormat searchKey options)))).
Proof.
  intros Hcap. unfold GenerateScopedSearchKey, hmac.Write, slice.upto.
  apply Nat.leb_le in Hcap. rewrite Hcap.
  rewrite elems_stringtoslicebyte.
  unfold rawFormat, hmac_sha256, hmac.Write, slice.elems, stringtoslicebyte.
  reflexivity.
Qed.

Lemma GenerateScopedSearchKey_panics (c : Client) (searchKey : string)
    (options : option (gmap string string)) :
  (slice.cap (stringtoslicebyte searchKey) < 4)%nat ->
  exists msg, GenerateScopedSearchKey c searchKey options = Panicked msg.
Proof.
  intros Hcap. unfold GenerateScopedSearchKey, hmac.Write, slice.upto.
  apply Nat.leb_gt in Hcap. rewrite Hcap. eauto.
Qed.

Lemma rawFormat_head (searchKey : string) (options : option (gmap string string)) :
  exists c s, (c =? fmt.percent)%char = false /\ rawFormat searchKey options = String c s.
Proof.
  unfold rawFormat, hmac_sha256, hmac.Sum, base64.EncodeToString.
  match goal with
  | |- context [sha256.Sum256 (hmac.opad ?h ++ ?m)] =>
      destruct (Sum256_cons (hmac.opad h ++ m)) as (b & l & ->)
  end.
  destruct (Encode_cons b l) as (i & s & ->).
  eexists _, _. split; [apply enc_not_percent | reflexivity].
Qed.

Lemma token_nonempty (searchKey : string) (options : option (gmap string string)) :
  base64.EncodeToString (bytes_of_string (fmt.Sprintf (rawFormat searchKey options)))
  <> EmptyString.
Proof.
  destruct (rawFormat_head searchKey options) as (c & s & Hc & ->).
  rewrite Sprintf_head by assumption.
  unfold base64.EncodeToString, bytes_of_string.
  change (list_byte_of_string (String c ?t)) with (byte_of_ascii c :: list_byte_of_string t).
  apply Encode_nonempty.
Qed.

(** With a key of at least 4 bytes the prefix is made of bytes of the key. *)
Lemma prefix_of_long_key (searchKey : string) :
  (4 <= String.length searchKey)%nat ->
  firstn 4 (bytes_of_string searchKey ++ spare searchKey)
  = firstn 4 (bytes_of_string searchKey).
Proof.
  intros Hlen. rewrite firstn_app, bytes_of_string_length.
  replace (4 - String.length searchKey)%nat with 0%nat by lia.
  cbn [firstn]. apply app_nil_r.
Qed.


End ScopedKey.

Section ScopedKeyClaims.
Context `{conv : Conversion}.

(** The token has the layout of the specification whenever neither the
    key prefix nor the JSON text holds a percent sign. *)
Theorem GenerateScopedSearchKey_layout (c : Client) (searchKey : string)
    (options : option (gmap string string)) :
  (4 <= String.length searchKey)%nat ->
  no_percent (string_of_bytes (firstn 4 (bytes_of_string searchKey))) = true ->
  no_percent (string_of_bytes (json.Marshal options)) = true ->
  GenerateScopedSearchKey c searchKey options
  = Returned (scoped_key_layout searchKey options).
Proof.
  intros Hlen Hkey Hjson.
  rewrite GenerateScopedSearchKey_returns
    by (rewrite cap_stringtoslicebyte; lia).
  f_equal. unfold scoped_key_layout, rawFormat.
  rewrite prefix_of_long_key by assumption. rewrite Sprintf_no_percent.
  - now rewrite !bytes_of_string_app, !bytes_of_string_of_bytes.
  - rewrite !no_percent_app, Hkey, Hjson.
    unfold base64.EncodeToString. now rewrite Encode_no_percent.
Qed.

(** C3: the token depends on the parameter mapping through its JSON
    serialization only: two calls with the same parent key and mappings
    that serialize to the same bytes return the same token, whichever
    client they are made on; with a key of at least 4 bytes the token is
    the same under every implementation of the byte conversion too. *)
Theorem GenerateScopedSearchKey_deterministic (c c' : Client) (searchKey : string)
    (options options' : option (gmap string string)) :
  json.Marshal options = json.Marshal options' ->
  GenerateScopedSearchKey c searchKey options
  = GenerateScopedSearchKey c' searchKey options' /\
  ((4 <= String.length searchKey)%nat ->
   forall conv' : Conversion,
     GenerateScopedSearchKey (conv := conv) c searchKey options
     = GenerateScopedSearchKey (conv := conv') c' searchKey options').
Proof.
  intros Hj. split.
  - unfold GenerateScopedSearchKey. rewrite Hj. reflexivity.
  - intros Hlen conv'.
    rewrite !GenerateScopedSearchKey_returns by (rewrite cap_stringtoslicebyte; lia).
    unfold rawFormat. rewrite Hj, !prefix_of_long_key by assumption. reflexivity.
Qed.

(** C2, as amended: with a parent key of at least 4 bytes the function
    returns, and what it returns is never the empty string (the branch for
    a failed HMAC write is not taken): it is the encoding of the digest
    followed by what [fmt.Sprintf] makes of the first 4 bytes of the key
    and the JSON text.  With a shorter key the slice expression is checked
    against the capacity of the converted slice: the function panics when
    that capacity is below 4; otherwise the 4-byte prefix is the key
    followed by the first spare bytes of the array, and the function
    returns the non-empty encoding of the digest followed by what
    [fmt.Sprintf] makes of that prefix and the JSON text, which is the
    prefix and the JSON text themselves when they hold no percent sign. *)
Theorem GenerateScopedSearchKey_total_within_capacity (c : Client)
    (searchKey : string) (options : option (gmap string string)) :
  let j := json.Marshal options in
  let digest := base64.EncodeToString (hmac_sha256 (bytes_of_string searchKey) j) in
  let keyPrefix := firstn 4 (bytes_of_string searchKey ++ spare searchKey) in
  let token :=
    base64.EncodeToString
      (bytes_of_string
         (digest +:+ fmt.Sprintf (string_of_bytes keyPrefix +:+ string_of_bytes j))%string) in
  ((4 <= String.length searchKey)%nat ->
   GenerateScopedSearchKey c searchKey options = Returned token
   /\ token <> EmptyString
   /\ keyPrefix = firstn 4 (bytes_of_string searchKey)) /\
  ((String.length searchKey < 4)%nat ->
   ((slice.cap (stringtoslicebyte searchKey) < 4)%nat ->
    exists msg, GenerateScopedSearchKey c searchKey options = Panicked msg) /\
   ((4 <= slice.cap (stringtoslicebyte searchKey))%nat ->
    GenerateScopedSearchKey c searchKey options = Returned token
    /\ token <> EmptyString
    /\ keyPrefix = bytes_of_string searchKey
                   ++ firstn (4 - String.length searchKey) (spare searchKey)
    /\ length keyPrefix = 4%nat
    /\ (no_percent (string_of_bytes keyPrefix) = true ->
        no_percent (string_of_bytes j) = true ->
        token = base64.EncodeToString (bytes_of_string digest ++ keyPrefix ++ j)))).
Proof.
  intros j digest keyPrefix token.
  assert (Htok : base64.EncodeToString
                   (bytes_of_string (fmt.Sprintf (rawFormat searchKey options))) = token).
  { unfold token, rawFormat. fold j. fold digest. fold keyPrefix.
    rewrite Sprintf_app_no_percent
      by (unfold digest, base64.EncodeToString; apply Encode_no_percent).
    reflexivity. }
  assert (Hret : (4 <= slice.cap (stringtoslicebyte searchKey))%nat ->
                 GenerateScopedSearchKey c searchKey options = Returned token
                 /\ token <> EmptyString).
  { intros Hcap. rewrite <- Htok. split.
    - now apply GenerateScopedSearchKey_returns.
    - apply token_nonempty. }
  split; [|split].
  - intros Hlen.
    destruct Hret as [Hr Hne]; [rewrite cap_stringtoslicebyte; lia|].
    repeat split; [exact Hr | exact Hne | now apply prefix_of_long_key].
  - apply GenerateScopedSearchKey_panics.
  - intros Hcap. destruct (Hret Hcap) as [Hr Hne].
    rewrite cap_stringtoslicebyte in Hcap.
    assert (Hpre : keyPrefix = bytes_of_string searchKey
                               ++ firstn (4 - String.length searchKey) (spare searchKey)).
    { unfold keyPrefix. rewrite firstn_app, bytes_of_string_length.
      rewrite firstn_all2 by (rewrite bytes_of_string_length; lia). reflexivity. }
    repeat split; [exact Hr | exact Hne | exact Hpre | |].
    + unfold keyPrefix. rewrite length_firstn, length_app, bytes_of_string_length. lia.
    + intros Hk Hj. unfold token.
      rewrite Sprintf_no_percent by (now rewrite no_percent_app, Hk, Hj).
      now rewrite !bytes_of_string_app, !bytes_of_string_of_bytes.
Qed.

End ScopedKeyClaims.

(** The documented example of the service: a key and a filter, with the
    token the service's own clients derive for them. *)
Example GenerateScopedSearchKey_documented (conv : Conversion) :
  GenerateScopedSearchKey double.client "RN23GFr1s6jQ9kgSNg2O7fYcAUXU7127"
    (Some {[ "filter_by" := "company_id:124" ]})
  = Returned "SC9sT0hncHFwTHNFc3U3d3psRDZBUGNXQUViQUdDNmRHSmJFQnNnczJ4VT1STjIzeyJmaWx0ZXJfYnkiOiJjb21wYW55X2lkOjEyNCJ9".
Proof. vm_compute. reflexivity. Qed.

(** C1, at an input with a percent sign: [fmt.Sprintf] reads the raw key as
    a format, finds the verb made of the percent sign and the closing
    quote, and writes a missing-operand note in its place, so the token is
    not the encoding of digest, prefix and JSON text. *)
Theorem GenerateScopedSearchKey_percent (conv : Conversion) :
  let options := Some {[ "q" := "100%" ]} in
  let q := String json.dquote EmptyString in
  string_of_bytes (json.Marshal options)
    = ("{" +:+ q +:+ "q" +:+ q +:+ ":" +:+ q +:+ "100%" +:+ q +:+ "}")%string /\
  fmt.Sprintf (rawFormat "abcd" options)
    = ("jUgRQb8K93TFcSoAUz+DE5R8ERv4WQUtJHo5/YKKVZ8=" +:+ "abcd" +:+
       "{" +:+ q +:+ "q" +:+ q +:+ ":" +:+ q +:+ "100%!" +:+ q +:+ "(MISSING)}")%string /\
  GenerateScopedSearchKey double.client "abcd" options
    = Returned "alVnUlFiOEs5M1RGY1NvQVV6K0RFNVI4RVJ2NFdRVXRKSG81L1lLS1ZaOD1hYmNkeyJxIjoiMTAwJSEiKE1JU1NJTkcpfQ==" /\
  scoped_key_layout "abcd" options
    = "alVnUlFiOEs5M1RGY1NvQVV6K0RFNVI4RVJ2NFdRVXRKSG81L1lLS1ZaOD1hYmNkeyJxIjoiMTAwJSJ9".
Proof. vm_compute. repeat split; reflexivity. Qed.

(** C2, as stated, fails for a two-byte key converted into a 32-byte
    buffer: the prefix is the key followed by two zero bytes and the
    function returns. *)
Lemma GenerateScopedSearchKey_short_key_returns :
  (String.length "ab" < 4)%nat /\
  GenerateScopedSearchKey (conv := tmpBuf) double.client "ab" (Some {[ "q" := "100" ]})
  = Returned "d3dyK3BobkNUdGxnN0R4Nk9VQUR6T3hBS1dHVzlxQlVueEQzb3M2MGFOTT1hYgAAeyJxIjoiMTAwIn0=".
Proof. split; [vm_compute; lia | vm_compute; reflexivity]. Qed.

(** ** Programs and transports *)
Section ProgFacts.
Context `{pkg : Package}.

(** Against a transport that answers [r] to every request, a program
    returns [answer p r] and issues [calls p r] requests. *)
Lemma run_answer {A W : Type} (p : Prog A)
    (transport : http.Request -> W -> result (http.Response ReadCloser) * W)
    (r : result (http.Response ReadCloser)) :
  (forall req w, fst (transport req w) = r) ->
  forall w, fst (fst (run p transport w)) = answer p r
            /\ length (snd (run p transport w)) = calls p r.
Proof.
  intros Hr. induction p as [a | req k IH]; intros w; cbn [run answer calls].
  - split; reflexivity.
  - specialize (Hr req w). destruct (transport req w) as [r' w']. cbn [fst] in Hr. subst r'.
    specialize (IH r w'). destruct (run (k r) transport w') as [[a w''] reqs].
    cbn [fst snd length] in *. destruct IH as [-> ->]. split; reflexivity.
Qed.

(** A program that calls at most once against every constant answer calls
    at most once against every transport. *)
Lemma run_calls {A W : Type} (p : Prog A)
    (transport : http.Request -> W -> result (http.Response ReadCloser) * W) (w : W) :
  (forall r, (calls p r <= 1)%nat) -> (length (snd (run p transport w)) <= 1)%nat.
Proof.
  intros H. destruct p as [a | req k]; cbn [run snd length]; [lia|].
  destruct (transport req w) as [r w']. specialize (H r). cbn [calls] in H.
  destruct (k r) as [a | req' k']; cbn [calls] in H; [|lia].
  cbn [run snd length]. lia.
Qed.

End ProgFacts.

(** ** The status-code mapping *)
Section StatusClaims.
Context `{pkg : Package}.

Implicit Types (c : Client) (resp : http.Response ReadCloser).

Lemma eqb_empty_false (s : string) : s <> EmptyString -> String.eqb s "" = false.
Proof. intros Hs. now apply String.eqb_neq. Qed.

Lemma length_eqb_false {A : Type} (l : list A) : l <> [] -> (length l =? 0)%nat = false.
Proof. intros Hl. destruct l; [congruence | reflexivity]. Qed.

(** C5: a schema with an empty name is refused with the name-required
    error, and one with a name and no field with the fields-required error;
    in both cases the transport is never called: whatever the transport,
    its state is untouched and the list of requests issued is empty. *)
Theorem CreateCollection_validates c (collectionSchema : CollectionSchema.t)
    (W : Type) (transport : http.Request -> W -> result (http.Response ReadCloser) * W)
    (w : W) :
  (CollectionSchema.Name collectionSchema = EmptyString ->
   run (CreateCollection c collectionSchema) transport w
   = (Err ErrCollectionNameRequired, w, [])) /\
  (CollectionSchema.Name collectionSchema <> EmptyString ->
   CollectionSchema.Fields collectionSchema = [] ->
   run (CreateCollection c collectionSchema) transport w
   = (Err ErrCollectionFieldsRequired, w, [])).
Proof.
  unfold CreateCollection. split.
  - intros ->. reflexivity.
  - intros Hname ->. rewrite eqb_empty_false by assumption. reflexivity.
Qed.

(** C6: a 409 response to [CreateCollection] gives the duplicate error,
    whatever the body. *)
Theorem CreateCollection_conflict c (collectionSchema : CollectionSchema.t) resp :
  CollectionSchema.Name collectionSchema <> EmptyString ->
  CollectionSchema.Fields collectionSchema <> [] ->
  http.StatusCode resp = http.StatusConflict ->
  answer (CreateCollection c collectionSchema) (Ok resp) = Err ErrCollectionDuplicate.
Proof.
  intros Hname Hfields Hstatus. unfold CreateCollection, apiCall.
  rewrite eqb_empty_false, length_eqb_false by assumption.
  step_op. reflexivity.
Qed.

(** C7: a 404 response gives the collection-not-found error in each of the
    five operations, whatever the body. *)
Theorem not_found_mapping c (collectionName id : string) (overrideCfg : Override.t) resp :
  http.StatusCode resp = http.StatusNotFound ->
  answer (RetrieveCollection c collectionName) (Ok resp) = Err ErrCollectionNotFound /\
  answer (DeleteCollection c collectionName) (Ok resp) = Err ErrCollectionNotFound /\
  answer (OverrideCollection c collectionName overrideCfg) (Ok resp)
    = Some ErrCollectionNotFound /\
  answer (RetrieveOverrides c collectionName) (Ok resp) = Err ErrCollectionNotFound /\
  answer (DeleteOverride c collectionName id) (Ok resp) = Some ErrCollectionNotFound.
Proof.
  intros Hstatus.
  unfold RetrieveCollection, DeleteCollection, OverrideCollection, RetrieveOverrides,
    DeleteOverride, apiCall, json_Marshal.
  repeat split; step_op; reflexivity.
Qed.

(** C8: on a response that is neither 404 nor 401 (every success response
    is one) whose body decodes to a map, [RetrieveOverrides] returns the
    list under the key "overrides" as it is, and the error "response did
    not return a list of overrides" when the map has no such key. *)
Theorem RetrieveOverrides_success c (collectionName : string) resp
    (resBody : gmap string (list (option Override.t))) :
  http.StatusCode resp <> http.StatusNotFound ->
  http.StatusCode resp <> http.StatusUnauthorized ->
  Decode_overrides (http.Body resp) = Ok resBody ->
  (forall overrides, resBody !! "overrides" = Some overrides ->
     answer (RetrieveOverrides c collectionName) (Ok resp) = Ok overrides) /\
  (resBody !! "overrides" = None ->
     answer (RetrieveOverrides c collectionName) (Ok resp)
     = Err (errors_New "response did not return a list of overrides")).
Proof.
  intros H404 H401 Hdec. status_neq.
  unfold RetrieveOverrides, apiCall. step_op. rewrite Hdec.
  split; [intros overrides Hin | intros Hin]; rewrite Hin; reflexivity.
Qed.

(** C10: on a response that is neither 404 nor 401, [OverrideCollection]
    and [DeleteOverride] return a nil error; [DeleteAPIKey] does on every
    response that is not 401.  The body is a variable of its own: the
    result is the same for every body. *)
Theorem other_statuses_are_success c (collectionName id : string)
    (overrideCfg : Override.t) (keyID : Z) (status : Z) (b : ReadCloser) :
  (status <> http.StatusNotFound -> status <> http.StatusUnauthorized ->
   answer (OverrideCollection c collectionName overrideCfg) (Ok (http.MkResponse status b))
     = None /\
   answer (DeleteOverride c collectionName id) (Ok (http.MkResponse status b)) = None) /\
  (status <> http.StatusUnauthorized ->
   answer (DeleteAPIKey c keyID) (Ok (http.MkResponse status b)) = None).
Proof.
  unfold OverrideCollection, DeleteOverride, DeleteAPIKey, apiCall, json_Marshal.
  split; [intros H404 H401 | intros H401];
    apply Z.eqb_neq in H401; try apply Z.eqb_neq in H404;
    cbn [bind answer http.StatusCode]; rewrite ?H404, ?H401; auto.
Qed.

(** C4, as amended: on a 400 response [CreateAPIKey] decodes the body as
    an [APIError] and returns the decoded value as the error, or the
    fallback "bad request" value when decoding fails; [CreateCollection]
    decodes the body as an [APIResponse] and returns an error made of the
    decoded message, or the decoder's own error when decoding fails. *)
Theorem bad_request_mapping c resp :
  http.StatusCode resp = http.StatusBadRequest ->
  (forall description actions collections,
     answer (CreateAPIKey c description actions collections) (Ok resp)
     = match Decode_APIError (http.Body resp) with
       | Err _ => Err (APIError_value (APIError.Make "bad request"))
       | Ok apiError => Err (APIError_value apiError)
       end) /\
  (forall collectionSchema,
     CollectionSchema.Name collectionSchema <> EmptyString ->
     CollectionSchema.Fields collectionSchema <> [] ->
     answer (CreateCollection c collectionSchema) (Ok resp)
     = match Decode_APIResponse (http.Body resp) with
       | Err err => Err err
       | Ok apiResponse => Err (errors_New (APIResponse.Message apiResponse))
       end).
Proof.
  intros Hstatus. split.
  - intros description actions collections. unfold CreateAPIKey, apiCall. step_op.
    change (http.StatusBadRequest =? http.StatusBadRequest) with true. cbn iota.
    destruct (Decode_APIError (http.Body resp)); reflexivity.
  - intros collectionSchema Hname Hfields. unfold CreateCollection, apiCall.
    rewrite eqb_empty_false, length_eqb_false by assumption. step_op.
    change (http.StatusBadRequest =? http.StatusConflict) with false.
    change (http.StatusBadRequest =? http.StatusUnauthorized) with false.
    change (http.StatusBadRequest =? http.StatusBadRequest) with true. cbn iota.
    destruct (Decode_APIResponse (http.Body resp)); reflexivity.
Qed.


End StatusClaims.

(** ** Further facts about the mapping *)
Section MoreStatusFacts.
Context `{pkg : Package}.

Implicit Types (c : Client) (resp : http.Response ReadCloser).

(** A 401 response gives the unauthorized error in every operation. *)
Theorem unauthorized_mapping c (collectionName id description : string)
    (collectionSchema : CollectionSchema.t) (overrideCfg : Override.t)
    (actions : list APIAction) (collections : list string) (keyID : Z) resp :
  http.StatusCode resp = http.StatusUnauthorized ->
  CollectionSchema.Name collectionSchema <> EmptyString ->
  CollectionSchema.Fields collectionSchema <> [] ->
  answer (CreateCollection c collectionSchema) (Ok resp) = Err ErrUnauthorized /\
  answer (RetrieveCollection c collectionName) (Ok resp) = Err ErrUnauthorized /\
  answer (DeleteCollection c collectionName) (Ok resp) = Err ErrUnauthorized /\
  answer (OverrideCollection c collectionName overrideCfg) (Ok resp) = Some ErrUnauthorized /\
  answer (RetrieveOverrides c collectionName) (Ok resp) = Err ErrUnauthorized /\
  answer (DeleteOverride c collectionName id) (Ok resp) = Some ErrUnauthorized /\
  answer (CreateAPIKey c description actions collections) (Ok resp) = Err ErrUnauthorized /\
  answer (DeleteAPIKey c keyID) (Ok resp) = Some ErrUnauthorized.
Proof.
  intros Hstatus Hname Hfields.
  unfold CreateCollection, RetrieveCollection, DeleteCollection, OverrideCollection,
    RetrieveOverrides, DeleteOverride, CreateAPIKey, DeleteAPIKey, apiCall, json_Marshal.
  rewrite eqb_empty_false, length_eqb_false by assumption.
  repeat split; step_op; reflexivity.
Qed.

(** A failure of the transport is handed to the caller as it is. *)
Theorem transport_failure_propagates c (collectionName id description : string)
    (collectionSchema : CollectionSchema.t) (overrideCfg : Override.t)
    (actions : list APIAction) (collections : list string) (keyID : Z) (err : error) :
  CollectionSchema.Name collectionSchema <> EmptyString ->
  CollectionSchema.Fields collectionSchema <> [] ->
  answer (CreateCollection c collectionSchema) (Err err) = Err err /\
  answer (RetrieveCollection c collectionName) (Err err) = Err err /\
  answer (DeleteCollection c collectionName) (Err err) = Err err /\
  answer (OverrideCollection c collectionName overrideCfg) (Err err) = Some err /\
  answer (RetrieveOverrides c collectionName) (Err err) = Err err /\
  answer (DeleteOverride c collectionName id) (Err err) = Some err /\
  answer (CreateAPIKey c description actions collections) (Err err) = Err err /\
  answer (DeleteAPIKey c keyID) (Err err) = Some err.
Proof.
  intros Hname Hfields.
  unfold CreateCollection, RetrieveCollection, DeleteCollection, OverrideCollection,
    RetrieveOverrides, DeleteOverride, CreateAPIKey, DeleteAPIKey, apiCall, json_Marshal.
  rewrite eqb_empty_false, length_eqb_false by assumption.
  repeat split; reflexivity.
Qed.

(** A schema that passes the validation is sent in exactly one request,
    whatever the transport answers: a POST to the collections resource
    with the serialized schema as its body.  The collection decoded from a
    response that is not 409, 401 or 400 is returned. *)
Theorem CreateCollection_success c (collectionSchema : CollectionSchema.t) :
  CollectionSchema.Name collectionSchema <> EmptyString ->
  CollectionSchema.Fields collectionSchema <> [] ->
  (exists req k, CreateCollection c collectionSchema = Do req k
                 /\ (forall r, exists v, k r = Ret v)
                 /\ http.Method req = http.MethodPost
                 /\ http.URL req = endpoint c collectionsEndpoint
                 /\ http.ReqBody req = Marshal_CollectionSchema collectionSchema) /\
  (forall r, calls (CreateCollection c collectionSchema) r = 1%nat) /\
  (forall (W : Type) transport (w : W),
     snd (run (CreateCollection c collectionSchema) transport w)
     = [Header_Add (NewRequest http.MethodPost (endpoint c collectionsEndpoint)
                      (Marshal_CollectionSchema collectionSchema))
          defaultHeaderKey (APIKey_ (masterNode c))]) /\
  (forall resp collection,
     http.StatusCode resp <> http.StatusConflict ->
     http.StatusCode resp <> http.StatusUnauthorized ->
     http.StatusCode resp <> http.StatusBadRequest ->
     Decode_Collection (http.Body resp) = Ok collection ->
     answer (CreateCollection c collectionSchema) (Ok resp) = Ok collection).
Proof.
  intros Hname Hfields.
  unfold CreateCollection, apiCall.
  rewrite eqb_empty_false, length_eqb_false by assumption.
  assert (Hk : forall r : result (http.Response ReadCloser), exists v : result Collection.t,
    match r with
    | Err err => Ret (Err err)
    | Ok resp =>
        if http.StatusCode resp =? http.StatusConflict then Ret (Err ErrCollectionDuplicate)
        else if http.StatusCode resp =? http.StatusUnauthorized then Ret (Err ErrUnauthorized)
        else if http.StatusCode resp =? http.StatusBadRequest then
          match Decode_APIResponse (http.Body resp) with
          | Err err => Ret (Err err)
          | Ok apiResponse => Ret (Err (errors_New (APIResponse.Message apiResponse)))
          end
        else
          match Decode_Collection (http.Body resp) with
          | Err err => Ret (Err err)
          | Ok collectionResponse => Ret (Ok collectionResponse)
          end
    end = Ret v).
  { intros [resp | err]; [|eexists; reflexivity].
    destruct (http.StatusCode resp =? http.StatusConflict); [eexists; reflexivity|].
    destruct (http.StatusCode resp =? http.StatusUnauthorized); [eexists; reflexivity|].
    destruct (http.StatusCode resp =? http.StatusBadRequest).
    - destruct (Decode_APIResponse (http.Body resp)); eexists; reflexivity.
    - destruct (Decode_Collection (http.Body resp)); eexists; reflexivity. }
  split; [|split; [|split]].
  - eexists _, _. cbn [bind]. split; [reflexivity|].
    split; [|repeat split]. intros r. cbn [bind]. exact (Hk r).
  - intros r. cbn [bind calls]. destruct (Hk r) as [v ->]. reflexivity.
  - intros W transport w. cbn [bind run].
    destruct (transport _ w) as [r w']. destruct (Hk r) as [v ->]. reflexivity.
  - intros resp collection H409 H401 H400 Hdec. status_neq.
    step_op. rewrite Hdec. reflexivity.
Qed.

End MoreStatusFacts.

(** ** Calls to the transport *)
Section RoundTrips.
Context `{pkg : Package} `{lists : !Lists}.

Implicit Types (c : Client).

(** Every operation, the eleven of the package and the two variants of
    [package main], issues at most one request on a run against any
    transport, whatever the transport answers and whatever state it
    keeps.  (The operations of the package call the transport through
    [apiCall]; the variants call it themselves.) *)
Theorem one_round_trip c (collectionName id description : string)
    (collectionSchema : CollectionSchema.t) (overrideCfg : Override.t)
    (actions : list APIAction) (collections : list string) (keyID : Z)
    (W : Type) (transport : http.Request -> W -> result (http.Response ReadCloser) * W)
    (w : W) :
  (length (snd (run (CreateCollection c collectionSchema) transport w)) <= 1)%nat /\
  (length (snd (run (RetrieveCollections c) transport w)) <= 1)%nat /\
  (length (snd (run (RetrieveCollection c collectionName) transport w)) <= 1)%nat /\
  (length (snd (run (DeleteCollection c collectionName) transport w)) <= 1)%nat /\
  (length (snd (run (OverrideCollection c collectionName overrideCfg) transport w)) <= 1)%nat /\
  (length (snd (run (RetrieveOverrides c collectionName) transport w)) <= 1)%nat /\
  (length (snd (run (DeleteOverride c collectionName id) transport w)) <= 1)%nat /\
  (length (snd (run (CreateAPIKey c description actions collections) transport w)) <= 1)%nat /\
  (length (snd (run (RetrieveAPIKey c keyID) transport w)) <= 1)%nat /\
  (length (snd (run (APIKeys c) transport w)) <= 1)%nat /\
  (length (snd (run (DeleteAPIKey c keyID) transport w)) <= 1)%nat /\
  (length (snd (run (main.RetrieveCollection c collectionName) transport w)) <= 1)%nat /\
  (length (snd (run (main.DeleteCollection c collectionName) transport w)) <= 1)%nat.
Proof.
  repeat split; apply run_calls; intros r;
    unfold CreateCollection, RetrieveCollections, RetrieveCollection, DeleteCollection,
      OverrideCollection, RetrieveOverrides, DeleteOverride, CreateAPIKey, RetrieveAPIKey,
      APIKeys, DeleteAPIKey, main.RetrieveCollection, main.DeleteCollection, apiCall,
      json_Marshal;
    cbn [bind calls];
    repeat (match goal with
            | |- context [if ?b then _ else _] => destruct b
            | |- context [match ?x with _ => _ end] => destruct x
            end; cbn [bind calls]);
    lia.
Qed.

End RoundTrips.

(** ** The theorems at the inputs of the package's tests *)

Lemma GenerateScopedSearchKey_total_within_capacity_witness :
  (exists token,
     GenerateScopedSearchKey (conv := exact) double.client "abcd" (Some {[ "q" := "100" ]})
     = Returned token /\ token <> EmptyString) /\
  (exists msg,
     GenerateScopedSearchKey (conv := exact) double.client "ab" (Some {[ "q" := "100" ]})
     = Panicked msg) /\
  GenerateScopedSearchKey (conv := tmpBuf) double.client "ab" (Some {[ "q" := "100" ]})
  = Returned
      (base64.EncodeToString
         (bytes_of_string
            (base64.EncodeToString
               (hmac_sha256 (bytes_of_string "ab") (json.Marshal (Some {[ "q" := "100" ]}))))
          ++ (bytes_of_string "ab" ++ [x00; x00])
          ++ json.Marshal (Some {[ "q" := "100" ]}))).
Proof.
  split; [|split].
  - destruct (proj1 (GenerateScopedSearchKey_total_within_capacity (conv := exact)
                       double.client "abcd" (Some {[ "q" := "100" ]}))
                ltac:(vm_compute; lia)) as (Hr & Hne & _).
    eexists. split; [exact Hr | exact Hne].
  - apply (proj1 (proj2 (GenerateScopedSearchKey_total_within_capacity (conv := exact)
                           double.client "ab" (Some {[ "q" := "100" ]})) ltac:(vm_compute; lia))).
    vm_compute. lia.
  - destruct (proj2 (proj2 (GenerateScopedSearchKey_total_within_capacity (conv := tmpBuf)
                              double.client "ab" (Some {[ "q" := "100" ]}))
                        ltac:(vm_compute; lia)) ltac:(vm_compute; lia))
      as (Hr & _ & _ & _ & Hlay).
    specialize (Hlay ltac:(vm_compute; reflexivity) ltac:(vm_compute; reflexivity)).
    rewrite Hr, Hlay. reflexivity.
Defined.

(** Two mappings whose values are different invalid bytes serialize to
    the same text, the replacement character written as an escape. *)
Lemma GenerateScopedSearchKey_deterministic_witness :
  GenerateScopedSearchKey (conv := exact) double.client "abcd"
    (Some {[ "q" := String "255" EmptyString ]})
  = GenerateScopedSearchKey (conv := exact) double.client "abcd"
      (Some {[ "q" := String "254" EmptyString ]}) /\
  GenerateScopedSearchKey (conv := exact) double.client "abcd"
    (Some {[ "q" := String "255" EmptyString ]})
  = GenerateScopedSearchKey (conv := tmpBuf) double.client "abcd"
      (Some {[ "q" := String "254" EmptyString ]}).
Proof.
  destruct (GenerateScopedSearchKey_deterministic (conv := exact) double.client double.client
              "abcd" (Some {[ "q" := String "255" EmptyString ]})
              (Some {[ "q" := String "254" EmptyString ]})) as [Hsame Hany].
  - vm_compute. reflexivity.
  - split; [exact Hsame | apply Hany; vm_compute; lia].
Defined.

Lemma GenerateScopedSearchKey_layout_witness :
  GenerateScopedSearchKey (conv := exact) double.client "RN23GFr1s6jQ9kgSNg2O7fYcAUXU7127"
    (Some {[ "filter_by" := "company_id:124" ]})
  = Returned (scoped_key_layout "RN23GFr1s6jQ9kgSNg2O7fYcAUXU7127"
                (Some {[ "filter_by" := "company_id:124" ]})).
Proof.
  apply GenerateScopedSearchKey_layout; vm_compute; [lia | reflexivity | reflexivity].
Defined.

Lemma CreateCollection_validates_witness :
  run (CreateCollection double.client
         (CollectionSchema.Make "" [CollectionField.Make "field" "string" false] ""))
      (double.mockClient (Ok (http.MkResponse 200 double.Object))) []
  = (Err ErrCollectionNameRequired, [], []) /\
  run (CreateCollection double.client (CollectionSchema.Make "new-collection" [] ""))
      (double.mockClient (Ok (http.MkResponse 200 double.Object))) []
  = (Err ErrCollectionFieldsRequired, [], []).
Proof.
  split.
  - apply (CreateCollection_validates (pkg := double.package)). reflexivity.
  - apply (CreateCollection_validates (pkg := double.package)); [discriminate | reflexivity].
Defined.

Lemma CreateCollection_conflict_witness :
  answer (CreateCollection double.client double.testCollectionSchema)
         (Ok (http.MkResponse 409 (double.Message "collection already exists")))
  = Err ErrCollectionDuplicate.
Proof.
  apply (CreateCollection_conflict (pkg := double.package)); [discriminate | discriminate | reflexivity].
Defined.

Lemma not_found_mapping_witness :
  answer (RetrieveCollection double.client "companies")
         (Ok (http.MkResponse 404 double.Object)) = Err ErrCollectionNotFound /\
  answer (DeleteOverride double.client "companies" "customize-apple")
         (Ok (http.MkResponse 404 double.Empty)) = Some ErrCollectionNotFound.
Proof.
  split.
  - apply (not_found_mapping (pkg := double.package) double.client "companies" "" double.testOverride
             (http.MkResponse 404 double.Object)). reflexivity.
  - apply (not_found_mapping (pkg := double.package) double.client "companies" "customize-apple" double.testOverride
             (http.MkResponse 404 double.Empty)). reflexivity.
Defined.

Lemma RetrieveOverrides_success_witness :
  answer (RetrieveOverrides double.client "companies")
         (Ok (http.MkResponse 200 (double.Overrides [Some double.testOverride])))
  = Ok [Some double.testOverride] /\
  answer (RetrieveOverrides double.client "companies")
         (Ok (http.MkResponse 200 double.Object))
  = Err (errors_New "response did not return a list of overrides").
Proof.
  split.
  - apply (RetrieveOverrides_success (pkg := double.package) double.client "companies"
             (http.MkResponse 200 (double.Overrides [Some double.testOverride]))
             {[ "overrides" := [Some double.testOverride] ]});
      [discriminate | discriminate | reflexivity | reflexivity].
  - apply (RetrieveOverrides_success (pkg := double.package) double.client "companies"
             (http.MkResponse 200 double.Object) ∅);
      [discriminate | discriminate | reflexivity | reflexivity].
Defined.

Lemma other_statuses_are_success_witness :
  answer (OverrideCollection double.client "companies" double.testOverride)
         (Ok (http.MkResponse 500 double.Empty)) = None /\
  answer (DeleteOverride double.client "companies" "customize-apple")
         (Ok (http.MkResponse 409 (double.Message "conflict"))) = None /\
  answer (DeleteAPIKey double.client 1)
         (Ok (http.MkResponse 404 (double.Message "not found"))) = None.
Proof.
  split; [|split].
  - apply (other_statuses_are_success (pkg := double.package) double.client "companies" "" double.testOverride 1
             500 double.Empty); discriminate.
  - apply (other_statuses_are_success (pkg := double.package) double.client "companies" "customize-apple"
             double.testOverride 1 409 (double.Message "conflict")); discriminate.
  - apply (other_statuses_are_success (pkg := double.package) double.client "companies" "" double.testOverride 1
             404 (double.Message "not found")); discriminate.
Defined.

Lemma bad_request_mapping_witness :
  answer (CreateAPIKey double.client "API key" ["documents:*"] ["companies"])
         (Ok (http.MkResponse 400 (double.Message "wrong actions")))
  = Err (APIError_value (APIError.Make "wrong actions")) /\
  answer (CreateCollection double.client double.testCollectionSchema)
         (Ok (http.MkResponse 400 (double.Message "wrong field type")))
  = Err (errors_New "wrong field type").
Proof.
  split.
  - apply (bad_request_mapping (pkg := double.package) double.client
             (http.MkResponse 400 (double.Message "wrong actions"))). reflexivity.
  - apply (bad_request_mapping (pkg := double.package) double.client
             (http.MkResponse 400 (double.Message "wrong field type")));
      [reflexivity | discriminate | discriminate].
Defined.


(** C4, as stated, fails for [CreateCollection]: on a 400 response with an
    empty body it returns the decoder's [io.EOF], where [CreateAPIKey]
    returns the fallback. *)
Lemma CreateCollection_bad_request_undecodable :
  answer (CreateCollection double.client double.testCollectionSchema)
         (Ok (http.MkResponse 400 double.Empty))
  = Err (foreign "EOF") /\
  answer (CreateAPIKey double.client "API key" ["documents:*"] ["companies"])
         (Ok (http.MkResponse 400 double.Empty))
  = Err (APIError_value (APIError.Make "bad request")).
Proof. split; reflexivity. Qed.


Lemma unauthorized_mapping_witness :
  answer (CreateAPIKey double.client "API key" ["documents:*"] ["companies"])
         (Ok (http.MkResponse 401 double.Empty)) = Err ErrUnauthorized /\
  answer (DeleteAPIKey double.client 1)
         (Ok (http.MkResponse 401 double.Empty)) = Some ErrUnauthorized.
Proof.
  split;
    apply (unauthorized_mapping (pkg := double.package) double.client "companies"
             "customize-apple" "API key" double.testCollectionSchema double.testOverride
             ["documents:*"] ["companies"] 1 (http.MkResponse 401 double.Empty));
    first [reflexivity | discriminate].
Defined.

Lemma transport_failure_propagates_witness :
  answer (RetrieveCollection double.client "companies")
         (Err (foreign "dial tcp: connection refused"))
  = Err (foreign "dial tcp: connection refused").
Proof.
  apply (transport_failure_propagates (pkg := double.package) double.client "companies"
           "customize-apple" "API key" double.testCollectionSchema double.testOverride
           ["documents:*"] ["companies"] 1 (foreign "dial tcp: connection refused"));
    discriminate.
Defined.

Lemma CreateCollection_success_witness :
  calls (CreateCollection double.client double.testCollectionSchema)
        (Ok (http.MkResponse 409 (double.Message "collection already exists"))) = 1%nat /\
  answer (CreateCollection double.client double.testCollectionSchema)
         (Ok (http.MkResponse 200 (double.ACollection double.testCollection)))
  = Ok double.testCollection.
Proof.
  destruct (CreateCollection_success (pkg := double.package) double.client
              double.testCollectionSchema ltac:(discriminate) ltac:(discriminate))
    as (_ & Hcalls & _ & Hok).
  split.
  - apply Hcalls.
  - apply Hok; first [reflexivity | discriminate].
Defined.

(** ** The other operations and how the operations relate *)
Section Relations.
Context `{pkg : Package}.

Implicit Types (c : Client) (resp : http.Response ReadCloser).

Lemma append_inj_l (s t u : string) : (s +:+ t = s +:+ u)%string -> t = u.
Proof. induction s as [|a s IH]; simpl; [auto | intros [= E]; auto]. Qed.


(** Retrieving and deleting a collection address the same URL with the
    methods GET and DELETE, and read the transport's answer in the same
    way: the same answer gives the same result. *)
Theorem retrieve_and_delete_agree c (collectionName : string)
    (r : result (http.Response ReadCloser)) :
  answer (RetrieveCollection c collectionName) r
  = answer (DeleteCollection c collectionName) r /\
  exists req req',
    first_request (RetrieveCollection c collectionName) = Some req /\
    first_request (DeleteCollection c collectionName) = Some req' /\
    http.URL req = http.URL req' /\
    http.Header req = http.Header req' /\
    http.Method req = http.MethodGet /\ http.Method req' = http.MethodDelete.
Proof.
  unfold RetrieveCollection, DeleteCollection, apiCall. split.
  - reflexivity.
  - eexists _, _. cbn [bind first_request]. repeat split.
Qed.

(** An override is deleted at the URL it was put at: [DeleteOverride] with
    the ID of the configuration addresses the URL of [OverrideCollection],
    and the two read the transport's answer in the same way. *)
Theorem put_and_delete_override_agree c (collectionName : string)
    (overrideCfg : Override.t) (r : result (http.Response ReadCloser)) :
  answer (OverrideCollection c collectionName overrideCfg) r
  = answer (DeleteOverride c collectionName (Override.ID overrideCfg)) r /\
  exists req req',
    first_request (OverrideCollection c collectionName overrideCfg) = Some req /\
    first_request (DeleteOverride c collectionName (Override.ID overrideCfg)) = Some req' /\
    http.URL req = http.URL req' /\
    http.Method req = http.MethodPut /\ http.Method req' = http.MethodDelete /\
    http.ReqBody req = Marshal_Override overrideCfg /\ http.ReqBody req' = [].
Proof.
  unfold OverrideCollection, DeleteOverride, apiCall, json_Marshal. split.
  - reflexivity.
  - eexists _, _. cbn [bind first_request]. repeat split.
Qed.

(** Names are put into the URL as they are: a collection whose name ends
    in "/overrides" is retrieved by the very request that lists the
    overrides of the collection named by the text before it, and deleting
    a collection named "<name>/overrides/<id>" is the request that deletes
    the override <id> of <name>. *)
Theorem names_are_not_escaped c (collectionName id : string) :
  first_request (RetrieveCollection c (collectionName +:+ "/overrides"))
  = first_request (RetrieveOverrides c collectionName) /\
  first_request (DeleteCollection c (collectionName +:+ "/overrides/" +:+ id))
  = first_request (DeleteOverride c collectionName id).
Proof.
  unfold RetrieveCollection, RetrieveOverrides, DeleteCollection, DeleteOverride, apiCall,
    endpoint.
  cbn [bind first_request]. split; reflexivity.
Qed.

End Relations.

(** ** Key identifiers in URLs *)

Lemma Itoa_inj (n m : Z) : Itoa n = Itoa m -> n = m.
Proof.
  unfold Itoa. intros E.
  assert (Hnn : forall z, Z.to_int z <> Decimal.Pos Decimal.Nil
                          /\ Z.to_int z <> Decimal.Neg Decimal.Nil).
  { intros [|p|p]; cbn [Z.to_int]; split; try discriminate;
      intros [= Hp]; now apply (DecimalPos.Unsigned.to_uint_nonnil p). }
  apply (f_equal DecimalString.NilZero.int_of_string) in E.
  rewrite !DecimalString.NilZero.isi in E by apply Hnn.
  injection E as E. apply (f_equal Z.of_int) in E.
  now rewrite !DecimalZ.of_to in E.
Qed.

Section KeyOperations.
Context `{pkg : Package} `{lists : !Lists}.

Implicit Types (c : Client) (resp : http.Response ReadCloser).

(** [RetrieveCollections], [APIKey] and [APIKeys] know one status only:
    401 gives the unauthorized error, and every other response, a 404, a
    400 or a 500 too, is decoded: the operation returns what the body
    decodes to, or the decoder's error.  A failure of the transport is
    returned as it is. *)
Theorem list_and_key_reads c (id : Z) (status : Z) (b : ReadCloser) (err : error) :
  (status = http.StatusUnauthorized ->
   answer (RetrieveCollections c) (Ok (http.MkResponse status b)) = Err ErrUnauthorized /\
   answer (RetrieveAPIKey c id) (Ok (http.MkResponse status b)) = Err ErrUnauthorized /\
   answer (APIKeys c) (Ok (http.MkResponse status b)) = Err ErrUnauthorized) /\
  (status <> http.StatusUnauthorized ->
   answer (RetrieveCollections c) (Ok (http.MkResponse status b))
     = match Decode_Collections b with Err e => Err e | Ok l => Ok l end /\
   answer (RetrieveAPIKey c id) (Ok (http.MkResponse status b))
     = match Decode_APIKey b with Err e => Err e | Ok k => Ok k end /\
   answer (APIKeys c) (Ok (http.MkResponse status b))
     = match Decode_APIKeys b with Err e => Err e | Ok l => Ok l end) /\
  answer (RetrieveCollections c) (Err err) = Err err /\
  answer (RetrieveAPIKey c id) (Err err) = Err err /\
  answer (APIKeys c) (Err err) = Err err.
Proof.
  unfold RetrieveCollections, RetrieveAPIKey, APIKeys, apiCall.
  cbn [bind answer http.StatusCode http.Body]. split; [|split].
  - intros ->. repeat split.
  - intros H401. apply Z.eqb_neq in H401. rewrite H401.
    destruct (Decode_Collections b), (Decode_APIKey b), (Decode_APIKeys b); repeat split.
  - repeat split.
Qed.

(** A key is read and deleted at the same URL, with the methods GET and
    DELETE, and two identifiers never share a request: the identifier is
    written in decimal, so the requests of [DeleteAPIKey] for two keys are
    the same only when the keys are. *)
Theorem key_requests c (id id' : Z) :
  (exists req req',
     first_request (RetrieveAPIKey c id) = Some req /\
     first_request (DeleteAPIKey c id) = Some req' /\
     http.URL req = http.URL req' /\
     http.Method req = http.MethodGet /\ http.Method req' = http.MethodDelete) /\
  (first_request (DeleteAPIKey c id) = first_request (DeleteAPIKey c id') -> id = id') /\
  (first_request (RetrieveAPIKey c id) = first_request (RetrieveAPIKey c id') -> id = id').
Proof.
  unfold RetrieveAPIKey, DeleteAPIKey, apiCall, endpoint, NewRequest, Header_Add.
  cbn [bind first_request http.Method http.URL http.Header http.ReqBody].
  split; [|split].
  - eexists _, _. repeat split.
  - intros [= E]. repeat apply append_inj_l in E. now apply Itoa_inj.
  - intros [= E]. repeat apply append_inj_l in E. now apply Itoa_inj.
Qed.

End KeyOperations.

(** ** base64: the encoding can be read back *)

Lemma byte_to_Z_range (b : byte) : 0 <= byte_to_Z b < 256.
Proof.
  unfold byte_to_Z. pose proof (Byte.to_N_bounded b) as Hb. lia.
Qed.

Lemma byte_to_Z_inj (b b' : byte) : byte_to_Z b = byte_to_Z b' -> b = b'.
Proof.
  unfold byte_to_Z. intros E. apply N2Z.inj in E.
  apply (f_equal Byte.of_N) in E. rewrite !Byte.of_to_N in E. congruence.
Qed.

Lemma lor_shiftl_small (a b k : Z) :
  0 <= k -> 0 <= b < 2 ^ k -> Z.lor (Z.shiftl a k) b = a * 2 ^ k + b.
Proof.
  intros Hk Hb. rewrite <- Z.shiftl_mul_pow2 by assumption.
  rewrite <- Z.add_lor_land.
  replace (Z.land (Z.shiftl a k) b) with 0; [lia|].
  symmetry. apply Z.bits_inj'. intros n Hn.
  rewrite Z.land_spec, Z.bits_0.
  destruct (Z.ltb_spec n k) as [Hlt | Hge].
  - rewrite Z.shiftl_spec_low by assumption. reflexivity.
  - rewrite <- (Z.mod_small b (2 ^ k)) by assumption.
    rewrite Z.mod_pow2_bits_high by lia. apply andb_false_r.
Qed.

Lemma land63 (x : Z) : Z.land x 63 = x mod 64.
Proof. change 63 with (Z.ones 6). now rewrite Z.land_ones by lia. Qed.

Lemma group3 (b0 b1 b2 : byte) :
  Z.lor (Z.lor (Z.shiftl (byte_to_Z b0) 16) (Z.shiftl (byte_to_Z b1) 8)) (byte_to_Z b2)
  = byte_to_Z b0 * 65536 + byte_to_Z b1 * 256 + byte_to_Z b2.
Proof.
  pose proof (byte_to_Z_range b0). pose proof (byte_to_Z_range b1).
  pose proof (byte_to_Z_range b2).
  rewrite (Z.shiftl_mul_pow2 _ 8) by lia.
  rewrite (lor_shiftl_small _ _ 16) by lia.
  replace (byte_to_Z b0 * 2 ^ 16 + byte_to_Z b1 * 2 ^ 8)
    with (Z.shiftl (byte_to_Z b0 * 256 + byte_to_Z b1) 8)
    by (rewrite Z.shiftl_mul_pow2 by lia; lia).
  rewrite (lor_shiftl_small _ _ 8) by lia. lia.
Qed.

Lemma group2 (b0 b1 : byte) :
  Z.lor (Z.shiftl (byte_to_Z b0) 16) (Z.shiftl (byte_to_Z b1) 8)
  = byte_to_Z b0 * 65536 + byte_to_Z b1 * 256.
Proof.
  pose proof (byte_to_Z_range b0). pose proof (byte_to_Z_range b1).
  rewrite (Z.shiftl_mul_pow2 _ 8) by lia.
  rewrite (lor_shiftl_small _ _ 16) by lia. lia.
Qed.

Lemma enc_inj (i j : Z) : base64.enc i = base64.enc j -> i mod 64 = j mod 64.
Proof.
  unfold base64.enc. rewrite !land63.
  fold (enc_at (Z.to_nat (i mod 64))). fold (enc_at (Z.to_nat (j mod 64))).
  pose proof (Z.mod_pos_bound i 64 ltac:(lia)) as Hi.
  pose proof (Z.mod_pos_bound j 64 ltac:(lia)) as Hj.
  assert (Hall : forallb (fun n => forallb (fun m =>
                   implb (enc_at n =? enc_at m)%char (n =? m)%nat) (seq 0 64)) (seq 0 64)
                 = true) by (vm_compute; reflexivity).
  rewrite forallb_forall in Hall.
  specialize (Hall (Z.to_nat (i mod 64)) ltac:(apply in_seq; lia)).
  rewrite forallb_forall in Hall.
  specialize (Hall (Z.to_nat (j mod 64)) ltac:(apply in_seq; lia)).
  intros E. rewrite E, Ascii.eqb_refl in Hall. cbn [implb] in Hall.
  apply Nat.eqb_eq in Hall. lia.
Qed.

Lemma enc_not_padding (i : Z) : base64.enc i <> base64.StdPadding.
Proof.
  unfold base64.enc. rewrite land63. fold (enc_at (Z.to_nat (i mod 64))).
  pose proof (Z.mod_pos_bound i 64 ltac:(lia)) as Hi.
  assert (Hall : forallb (fun n => negb (enc_at n =? base64.StdPadding)%char) (seq 0 64)
                 = true) by (vm_compute; reflexivity).
  rewrite forallb_forall in Hall.
  specialize (Hall (Z.to_nat (i mod 64)) ltac:(apply in_seq; lia)).
  apply negb_true_iff, Ascii.eqb_neq in Hall. exact Hall.
Qed.

Lemma String_inj (a b : ascii) (s t : string) :
  String a s = String b t -> a = b /\ s = t.
Proof. intros [= -> ->]. split; reflexivity. Qed.

Ltac string_inj :=
  repeat match goal with
         | H : String _ _ = String _ _ |- _ =>
             apply String_inj in H; let E := fresh "E" in destruct H as [E H]
         end.

Ltac padding_clash :=
  match goal with
  | H : base64.enc _ = base64.StdPadding |- _ => exfalso; exact (enc_not_padding _ H)
  | H : base64.StdPadding = base64.enc _ |- _ =>
      exfalso; symmetry in H; exact (enc_not_padding _ H)
  end.

Ltac byte_ranges :=
  repeat match goal with
         | b : byte |- _ =>
             lazymatch goal with
             | _ : 0 <= byte_to_Z b < 256 |- _ => fail
             | _ => pose proof (byte_to_Z_range b)
             end
         end.

Ltac digits_to_div :=
  repeat match goal with
         | H : base64.enc _ = base64.enc _ |- _ => apply enc_inj in H
         end;
  rewrite ?group3, ?group2 in *;
  rewrite ?Z.shiftr_div_pow2, ?Z.shiftl_mul_pow2 in * by lia;
  change (2 ^ 18) with 262144 in *; change (2 ^ 16) with 65536 in *;
  change (2 ^ 12) with 4096 in *; change (2 ^ 6) with 64 in *.

Lemma Encode_inj (l l' : list byte) : base64.Encode l = base64.Encode l' -> l = l'.
Proof.
  assert (Hgen : forall n (l l' : list byte), (length l <= n)%nat ->
                 base64.Encode l = base64.Encode l' -> l = l').
  { clear l l'. induction n as [|n IH]; intros l l' Hn E.
    - destruct l; [|simpl in Hn; lia].
      destruct l' as [|c0 [|c1 [|c2 r']]]; [reflexivity | discriminate E ..].
    - destruct l as [|b0 [|b1 [|b2 r]]]; destruct l' as [|c0 [|c1 [|c2 r']]];
        cbn [base64.Encode] in E; try discriminate E; try reflexivity;
        string_inj; try padding_clash; byte_ranges.
      + digits_to_div. f_equal. apply byte_to_Z_inj.
        Z.div_mod_to_equations. lia.
      + digits_to_div.
        assert (byte_to_Z b0 = byte_to_Z c0 /\ byte_to_Z b1 = byte_to_Z c1) as [Ha Hb]
          by (Z.div_mod_to_equations; lia).
        apply byte_to_Z_inj in Ha, Hb. now subst.
      + digits_to_div.
        assert (byte_to_Z b0 = byte_to_Z c0 /\ byte_to_Z b1 = byte_to_Z c1
                /\ byte_to_Z b2 = byte_to_Z c2) as (Ha & Hb & Hc)
          by (Z.div_mod_to_equations; lia).
        apply byte_to_Z_inj in Ha, Hb, Hc. subst. do 3 f_equal.
        apply IH; [simpl in Hn; lia | assumption]. }
  apply (Hgen (length l)). lia.
Qed.

Lemma Encode_length (l : list byte) :
  String.length (base64.Encode l) = (4 * ((length l + 2) / 3))%nat.
Proof.
  assert (Hgen : forall n (l : list byte), (length l <= n)%nat ->
                 String.length (base64.Encode l) = (4 * ((length l + 2) / 3))%nat).
  { clear l. induction n as [|n IH]; intros l Hn.
    - destruct l; [reflexivity | simpl in Hn; lia].
    - destruct l as [|b0 [|b1 [|b2 r]]]; try reflexivity.
      cbn [base64.Encode String.length length]. rewrite IH by (simpl in Hn; lia).
      replace (S (S (S (length r))) + 2)%nat with ((length r + 2) + 1 * 3)%nat by lia.
      rewrite Nat.div_add by lia. lia. }
  apply (Hgen (length l)). lia.
Qed.

Lemma Sum256_length (data : list byte) : length (sha256.Sum256 data) = 32%nat.
Proof.
  unfold sha256.Sum256.
  destruct (sha256.blocks _ _ _) as [a b c d e f g h].
  unfold sha256.be_bytes. cbn [seq rev app map length]. reflexivity.
Qed.

Lemma digest_length (key msg : list byte) :
  String.length (base64.EncodeToString (hmac_sha256 key msg)) = 44%nat.
Proof.
  unfold base64.EncodeToString, hmac_sha256, hmac.Sum.
  rewrite Encode_length, Sum256_length. reflexivity.
Qed.

(** ** Strings *)

Lemma append_inj_length (s s' t t' : string) :
  String.length s = String.length s' ->
  (s +:+ t = s' +:+ t')%string -> s = s' /\ t = t'.
Proof.
  revert s'. induction s as [|a s IH]; intros [|a' s'] Hlen E;
    try discriminate Hlen; simpl in *.
  - split; [reflexivity | assumption].
  - injection E as -> E. injection Hlen as Hlen.
    destruct (IH s' Hlen E) as [-> ->]. split; reflexivity.
Qed.

Lemma string_of_bytes_length (l : list byte) :
  String.length (string_of_bytes l) = length l.
Proof.
  rewrite <- (bytes_of_string_of_bytes l) at 2. now rewrite bytes_of_string_length.
Qed.

Lemma bytes_of_string_inj (s t : string) : bytes_of_string s = bytes_of_string t -> s = t.
Proof.
  intros E. apply (f_equal string_of_bytes) in E.
  now rewrite !string_of_bytes_of_string in E.
Qed.

Lemma string_of_bytes_inj (l l' : list byte) : string_of_bytes l = string_of_bytes l' -> l = l'.
Proof.
  intros E. apply (f_equal bytes_of_string) in E.
  now rewrite !bytes_of_string_of_bytes in E.
Qed.

Section TokenParts.
Context `{conv : Conversion}.

(** What the token is made of, for a key of at least 4 bytes. *)
Lemma GenerateScopedSearchKey_long_key (c : Client) (searchKey : string)
    (options : option (gmap string string)) :
  (4 <= String.length searchKey)%nat ->
  GenerateScopedSearchKey c searchKey options
  = Returned (base64.EncodeToString (bytes_of_string
      (base64.EncodeToString (hmac_sha256 (bytes_of_string searchKey) (json.Marshal options))
       +:+ fmt.Sprintf (string_of_bytes (firstn 4 (bytes_of_string searchKey))
                        +:+ string_of_bytes (json.Marshal options)))%string)).
Proof.
  intros Hlen.
  rewrite GenerateScopedSearchKey_returns by (rewrite cap_stringtoslicebyte; lia).
  unfold rawFormat. rewrite prefix_of_long_key by assumption.
  rewrite Sprintf_app_no_percent
    by (unfold base64.EncodeToString; apply Encode_no_percent).
  reflexivity.
Qed.

End TokenParts.

(** Two tokens are the same only if they were made of the same parts: the
    same digest, the same 4 bytes of the key and the same JSON text. *)
Theorem token_determines_parts (conv conv' : Conversion) (c c' : Client)
    (searchKey searchKey' : string) (options options' : option (gmap string string)) :
  (4 <= String.length searchKey)%nat ->
  (4 <= String.length searchKey')%nat ->
  no_percent (string_of_bytes (firstn 4 (bytes_of_string searchKey))
              +:+ string_of_bytes (json.Marshal options)) = true ->
  no_percent (string_of_bytes (firstn 4 (bytes_of_string searchKey'))
              +:+ string_of_bytes (json.Marshal options')) = true ->
  GenerateScopedSearchKey (conv := conv) c searchKey options
  = GenerateScopedSearchKey (conv := conv') c' searchKey' options' ->
  hmac_sha256 (bytes_of_string searchKey) (json.Marshal options)
  = hmac_sha256 (bytes_of_string searchKey') (json.Marshal options') /\
  firstn 4 (bytes_of_string searchKey) = firstn 4 (bytes_of_string searchKey') /\
  json.Marshal options = json.Marshal options'.
Proof.
  intros Hlen Hlen' Hp Hp' E.
  rewrite !GenerateScopedSearchKey_long_key in E by assumption.
  rewrite !Sprintf_no_percent in E by assumption.
  injection E as E. unfold base64.EncodeToString in E at 1 3.
  apply Encode_inj, bytes_of_string_inj in E.
  apply append_inj_length in E as [Ed E]; [|now rewrite !digest_length].
  apply append_inj_length in E as [Ek Ej].
  - unfold base64.EncodeToString in Ed. split; [|split].
    + apply Encode_inj. exact Ed.
    + now apply string_of_bytes_inj.
    + now apply string_of_bytes_inj.
  - rewrite !string_of_bytes_length, !length_firstn, !bytes_of_string_length. lia.
Qed.

(** ** Strings: prefixes *)

Lemma append_cons (a : ascii) (s t : string) :
  (String a s +:+ t)%string = String a (s +:+ t).
Proof. reflexivity. Qed.

Lemma append_nil_l (s : string) : ("" +:+ s)%string = s.
Proof. reflexivity. Qed.

Lemma append_nil_r (s : string) : (s +:+ "")%string = s.
Proof. induction s as [|a s IH]; [reflexivity | now rewrite append_cons, IH]. Qed.

Lemma append_assoc (s t u : string) : ((s +:+ t) +:+ u)%string = (s +:+ (t +:+ u))%string.
Proof. induction s as [|a s IH]; [reflexivity | now rewrite !append_cons, IH]. Qed.

(** Two ways of cutting one string: one cut is inside a part of the other. *)
Lemma append_eq_append (x y a b : string) :
  (x +:+ y = a +:+ b)%string ->
  (exists m, a = (x +:+ m)%string /\ y = (m +:+ b)%string) \/
  (exists m, x = (a +:+ m)%string /\ b = (m +:+ y)%string).
Proof.
  revert a. induction x as [|c x IH]; intros a E.
  - left. exists a. split; [reflexivity | exact E].
  - destruct a as [|d a].
    + right. exists (String c x). split; [reflexivity | symmetry; exact E].
    + rewrite !append_cons in E. injection E as -> E.
      destruct (IH a E) as [(m & -> & ->) | (m & -> & ->)].
      * left. exists m. split; reflexivity.
      * right. exists m. split; reflexivity.
Qed.

Lemma string_drop_prefix (n : nat) (s : string) :
  exists p, s = (p +:+ string_drop n s)%string.
Proof.
  revert s. induction n as [|n IH]; intros s.
  - exists EmptyString. reflexivity.
  - destruct s as [|c s]; [exists EmptyString; reflexivity|].
    destruct (IH s) as [p Hp]. exists (String c p).
    cbn [string_drop]. rewrite append_cons. now rewrite <- Hp.
Qed.

Lemma skip_flags_prefix (s : string) : exists p, s = (p +:+ fmt.skip_flags s)%string.
Proof.
  induction s as [|c s IH]; [exists EmptyString; reflexivity|].
  cbn [fmt.skip_flags]. destruct (fmt.is_flag c).
  - destruct IH as [p Hp]. exists (String c p). rewrite append_cons. now rewrite <- Hp.
  - exists EmptyString. reflexivity.
Qed.

Lemma parsenum_prefix (s : string) (num : Z) (isnum : bool) :
  exists p, s = (p +:+ snd (fmt.parsenum s num isnum))%string.
Proof.
  revert num isnum. induction s as [|c s IH]; intros num isnum.
  - exists EmptyString. reflexivity.
  - cbn [fmt.parsenum]. destruct (fmt.is_digit c).
    + destruct (fmt.tooLarge num).
      * exists (String c s). cbn [snd]. now rewrite append_nil_r.
      * destruct (IH (num * 10 + (utf8.code c - 48)) true) as [p Hp].
        exists (String c p). rewrite append_cons. now rewrite <- Hp.
    + exists EmptyString. reflexivity.
Qed.

Lemma argNumber_prefix (good : bool) (s : string) :
  exists p, s = (p +:+ fst (fst (fmt.argNumber good s)))%string.
Proof.
  unfold fmt.argNumber. destruct s as [|c s]; [exists EmptyString; reflexivity|].
  destruct (c =? "[")%char; [|exists EmptyString; reflexivity].
  destruct (fmt.parseArgNumber (String c s)) as [[index wid] ok]. cbn [fst].
  apply string_drop_prefix.
Qed.

Lemma width_prefix (a g : bool) (s : string) :
  exists p, s = (p +:+ snd (fst (fst (fmt.width a g s))))%string.
Proof.
  unfold fmt.width. destruct (fmt.starts_with "*" s); cbn [fst snd].
  - apply string_drop_prefix.
  - pose proof (parsenum_prefix s 0 false) as Hp.
    destruct (fmt.parsenum s 0 false) as [[n w] t]. exact Hp.
Qed.

Lemma width_out (a g : bool) (s : string) :
  fst (fst (fst (fmt.width a g s))) = EmptyString
  \/ fst (fst (fst (fmt.width a g s))) = "%!(BADWIDTH)"%string.
Proof.
  unfold fmt.width. destruct (fmt.starts_with "*" s); cbn [fst snd]; [now right|].
  destruct (fmt.parsenum s 0 false) as [[n w] t]. now left.
Qed.

Lemma precision_prefix (a g : bool) (s : string) :
  exists p, s = (p +:+ snd (fst (fst (fmt.precision a g s))))%string.
Proof.
  unfold fmt.precision. destruct (fmt.starts_with "." s); cbn [fst snd];
    [|exists EmptyString; reflexivity].
  destruct (string_drop_prefix 1 s) as [p1 Hp1].
  pose proof (argNumber_prefix (if a then false else g) (string_drop 1 s)) as [p2 Hp2].
  destruct (fmt.argNumber _ (string_drop 1 s)) as [[t a'] g']. cbn [fst] in Hp2.
  destruct (fmt.starts_with "*" t); cbn [fst snd].
  - destruct (string_drop_prefix 1 t) as [p3 Hp3].
    exists (p1 +:+ p2 +:+ p3)%string. rewrite !append_assoc, <- Hp3, <- Hp2. exact Hp1.
  - pose proof (parsenum_prefix t 0 false) as [p3 Hp3].
    destruct (fmt.parsenum t 0 false) as [[n w] u]. cbn [fst snd] in *.
    exists (p1 +:+ p2 +:+ p3)%string. rewrite !append_assoc, <- Hp3, <- Hp2. exact Hp1.
Qed.

Lemma precision_out (a g : bool) (s : string) :
  fst (fst (fst (fmt.precision a g s))) = EmptyString
  \/ fst (fst (fst (fmt.precision a g s))) = "%!(BADPREC)"%string.
Proof.
  unfold fmt.precision. destruct (fmt.starts_with "." s); cbn [fst snd]; [|now left].
  destruct (fmt.argNumber _ (string_drop 1 s)) as [[t a'] g'].
  destruct (fmt.starts_with "*" t); cbn [fst snd]; [now right|].
  destruct (fmt.parsenum t 0 false) as [[n w] u]. now left.
Qed.

(** ** Runes *)

Lemma lor_ge_l (a b : Z) : 0 <= b -> a <= Z.lor a b.
Proof.
  intros Hb.
  assert (E : Z.lor a b = Z.lor a (Z.ldiff b a)).
  { apply Z.bits_inj'. intros n Hn.
    rewrite !Z.lor_spec, Z.ldiff_spec.
    destruct (Z.testbit a n), (Z.testbit b n); reflexivity. }
  assert (D : Z.land a (Z.ldiff b a) = 0).
  { apply Z.bits_inj'. intros n Hn.
    rewrite Z.land_spec, Z.ldiff_spec, Z.bits_0.
    destruct (Z.testbit a n), (Z.testbit b n); reflexivity. }
  rewrite E, <- (Z.lxor_lor _ _ D), <- (Z.add_nocarry_lxor _ _ D).
  assert (0 <= Z.ldiff b a) by (apply Z.ldiff_nonneg; now left). lia.
Qed.

Lemma lor_ge_r (a b : Z) : 0 <= a -> b <= Z.lor a b.
Proof. intros. rewrite Z.lor_comm. now apply lor_ge_l. Qed.

Lemma land_ones_mod (x m : Z) (n : Z) :
  0 <= n -> m = Z.ones n -> Z.land x m = x mod 2 ^ n.
Proof. intros Hn ->. now apply Z.land_ones. Qed.

Lemma code_range (c : ascii) : 0 <= utf8.code c < 256.
Proof.
  unfold utf8.code. pose proof (N_ascii_bounded c). lia.
Qed.

Lemma lor_high (a b : Z) : 0 <= a -> 0 <= b -> 128 <= a \/ 128 <= b -> 128 <= Z.lor a b.
Proof.
  intros Ha Hb [H|H].
  - pose proof (lor_ge_l a b Hb). lia.
  - pose proof (lor_ge_r a b Ha). lia.
Qed.

Ltac rune_bits :=
  repeat match goal with
  | |- context [Z.land ?x 63] => change (Z.land x 63) with (Z.land x (Z.ones 6))
  | |- context [Z.land ?x 31] => change (Z.land x 31) with (Z.land x (Z.ones 5))
  | |- context [Z.land ?x 15] => change (Z.land x 15) with (Z.land x (Z.ones 4))
  | |- context [Z.land ?x 7] => change (Z.land x 7) with (Z.land x (Z.ones 3))
  end;
  rewrite ?Z.land_ones, ?Z.shiftl_mul_pow2 by lia.

(** A multi-byte encoding never decodes to an ASCII rune. *)
Lemma DecodeRuneInString_high (c : ascii) (s : string) :
  128 <= utf8.code c -> 128 <= fst (utf8.DecodeRuneInString (String c s)).
Proof.
  intros Hc. pose proof (code_range c) as Rc.
  assert (HE : 128 <= utf8.RuneError) by (unfold utf8.RuneError; lia).
  unfold utf8.DecodeRuneInString.
  destruct (Z.ltb_spec (utf8.code c) 128) as [|_]; [lia|].
  destruct (utf8.first (utf8.code c)) as [[[sz lo] hi]|] eqn:F; [|exact HE].
  destruct s as [|c1 r1]; [exact HE|].
  pose proof (code_range c1) as R1.
  destruct (_ <? _)%nat; [exact HE|].
  destruct (Z.ltb_spec (utf8.code c1) lo) as [|Hlo]; [exact HE|].
  destruct (Z.ltb_spec hi (utf8.code c1)) as [|Hhi]; [exact HE|].
  cbn [orb].
  assert (Hsz : (sz = 2%nat /\ 194 <= utf8.code c < 224) \/
                (sz = 3%nat /\ 224 <= utf8.code c < 240 /\
                  (utf8.code c = 224 -> 160 <= lo /\ hi <= 191)) \/
                (sz = 4%nat /\ 240 <= utf8.code c < 245 /\
                  (utf8.code c = 240 -> 144 <= lo /\ hi <= 191))).
  { unfold utf8.first in F.
    repeat match type of F with
    | (if ?b then _ else _) = _ =>
        let H := fresh "B" in destruct b eqn:H;
          [first [discriminate F | injection F as <- <- <-] | ]
    | None = _ => discriminate F
    end;
    repeat match goal with
    | H : (_ <? _) = true |- _ => apply Z.ltb_lt in H
    | H : (_ <? _) = false |- _ => apply Z.ltb_ge in H
    | H : (_ =? _) = true |- _ => apply Z.eqb_eq in H
    | H : (_ =? _) = false |- _ => apply Z.eqb_neq in H
    end; lia. }
  destruct Hsz as [[-> H0] | [(-> & H0 & H1) | (-> & H0 & H1)]]; cbn [Nat.leb fst].
  - rune_bits. apply lor_high; [| |left]; Z.div_mod_to_equations; lia.
  - destruct r1 as [|c2 r2]; [exact HE|].
    destruct (negb (utf8.cont (utf8.code c2))); [exact HE|]. cbn [fst].
    pose proof (code_range c2) as R2. rune_bits.
    apply lor_high; [apply Z.lor_nonneg; split| |left];
      [Z.div_mod_to_equations; lia .. |].
    apply lor_high; Z.div_mod_to_equations; lia.
  - destruct r1 as [|c2 r2]; [exact HE|].
    destruct (negb (utf8.cont (utf8.code c2))); [exact HE|]. cbn [fst].
    destruct r2 as [|c3 r3]; [exact HE|].
    destruct (negb (utf8.cont (utf8.code c3))); [exact HE|]. cbn [fst].
    pose proof (code_range c2) as R2. pose proof (code_range c3) as R3. rune_bits.
    apply lor_high; [repeat (apply Z.lor_nonneg; split)| |left];
      [Z.div_mod_to_equations; lia .. |].
    apply lor_high; [apply Z.lor_nonneg; split| |left];
      [Z.div_mod_to_equations; lia .. |].
    apply lor_high; Z.div_mod_to_equations; lia.
Qed.

Lemma chr_percent (z : Z) :
  (utf8.chr z =? fmt.percent)%char = true -> z mod 256 = 37.
Proof.
  intros E. apply Ascii.eqb_eq in E. apply (f_equal N_of_ascii) in E.
  unfold utf8.chr in E. pose proof (Z.mod_pos_bound z 256 ltac:(lia)).
  rewrite N_ascii_embedding in E by lia.
  change (N_of_ascii fmt.percent) with 37%N in E. lia.
Qed.

Lemma chr_high (k x : Z) :
  Z.testbit k 7 = true -> (utf8.chr (Z.lor k x) =? fmt.percent)%char = false.
Proof.
  intros Hk. destruct (utf8.chr (Z.lor k x) =? fmt.percent)%char eqn:E; [|reflexivity].
  apply chr_percent in E. apply (f_equal (fun v => Z.testbit v 7)) in E.
  change 256 with (2 ^ 8) in E. rewrite Z.mod_pow2_bits_low in E by lia.
  rewrite Z.lor_spec, Hk in E. discriminate E.
Qed.

(** Only the rune of the percent sign is written with a percent sign. *)
Lemma AppendRune_no_percent (v : Z) : v <> 37 -> no_percent (utf8.AppendRune v) = true.
Proof.
  intros Hv. unfold utf8.AppendRune.
  destruct (Z.leb_spec 0 v); destruct (Z.leb_spec v 127); cbn [andb].
  1: { cbn [no_percent].
       destruct (utf8.chr v =? fmt.percent)%char eqn:E; [|reflexivity].
       apply chr_percent in E. rewrite Z.mod_small in E by lia. contradiction. }
  all: repeat match goal with
       | |- context [if ?b then _ else _] => destruct b
       end; cbn [no_percent]; rewrite ?chr_high by reflexivity; reflexivity.
Qed.

(** ** The shape of what one verb writes *)

Lemma code_percent (c : ascii) : utf8.code c = 37 -> c = fmt.percent.
Proof.
  unfold utf8.code. intros E.
  rewrite <- (ascii_N_embedding c). replace (N_of_ascii c) with 37%N by lia. reflexivity.
Qed.

Lemma operand_shape (g : bool) (s : string) :
  (fst (fmt.operand g s) = "%"%string /\ s = String fmt.percent (snd (fmt.operand g s)))
  \/ (exists e, fst (fmt.operand g s) = ("%!" +:+ e)%string /\ no_percent e = true
                /\ exists p, s = (p +:+ snd (fmt.operand g s))%string).
Proof.
  unfold fmt.operand. destruct s as [|c s].
  - right. exists "(NOVERB)"%string. repeat split. exists EmptyString. reflexivity.
  - destruct (Z.ltb_spec (utf8.code c) 128) as [Hlow | Hhigh].
    + destruct (Z.eqb_spec (utf8.code c) (utf8.code fmt.percent)) as [E | N].
      * left. cbn [fst snd string_drop]. apply code_percent in E. now subst c.
      * right. destruct (negb g); eexists; cbn [fst snd];
          (split; [reflexivity|]); (split; [|apply (string_drop_prefix 1)]);
          rewrite no_percent_app, AppendRune_no_percent by exact N; reflexivity.
    + pose proof (DecodeRuneInString_high c s Hhigh) as Hv.
      destruct (utf8.DecodeRuneInString (String c s)) as [v size]. cbn [fst] in Hv.
      destruct (Z.eqb_spec v (utf8.code fmt.percent)) as [E | N].
      * change (utf8.code fmt.percent) with 37 in E. lia.
      * right. destruct (negb g); eexists; cbn [fst snd];
          (split; [reflexivity|]); (split; [|apply string_drop_prefix]);
          rewrite no_percent_app, AppendRune_no_percent by exact N; reflexivity.
Qed.

Lemma verb_shape (s : string) :
  exists o1 o2 o3,
    fst (fmt.verb s) = (o1 +:+ o2 +:+ o3)%string
    /\ (o1 = EmptyString \/ o1 = BADWIDTH) /\ (o2 = EmptyString \/ o2 = BADPREC)
    /\ ((o3 = "%"%string /\ exists p, s = (p +:+ String fmt.percent (snd (fmt.verb s)))%string)
        \/ (exists e, o3 = ("%!" +:+ e)%string /\ no_percent e = true
                      /\ exists p, s = (p +:+ snd (fmt.verb s))%string)).
Proof.
  unfold fmt.verb.
  destruct (skip_flags_prefix s) as [p0 H0].
  destruct (argNumber_prefix true (fmt.skip_flags s)) as [p1 H1].
  destruct (fmt.argNumber true (fmt.skip_flags s)) as [[s1 a1] g1]. cbn [fst] in H1.
  destruct (width_prefix a1 g1 s1) as [p2 H2]. pose proof (width_out a1 g1 s1) as W.
  destruct (fmt.width a1 g1 s1) as [[[o2 s2] a2] g2]. cbn [fst snd] in H2, W.
  destruct (precision_prefix a2 g2 s2) as [p3 H3]. pose proof (precision_out a2 g2 s2) as P.
  destruct (fmt.precision a2 g2 s2) as [[[o3 s3] a3] g3]. cbn [fst snd] in H3, P.
  assert (H4 : exists p, s3 = (p +:+ fst (fst (if a3 then (s3, a3, g3)
                                               else fmt.argNumber g3 s3)))%string).
  { destruct a3; [exists EmptyString; reflexivity | apply argNumber_prefix]. }
  destruct H4 as [p4 H4].
  destruct (if a3 then (s3, a3, g3) else fmt.argNumber g3 s3) as [[s4 a4] g4].
  cbn [fst] in H4.
  pose proof (operand_shape g4 s4) as O.
  destruct (fmt.operand g4 s4) as [o5 s5]. cbn [fst snd] in *.
  assert (Hs : s = ((p0 +:+ p1 +:+ p2 +:+ p3 +:+ p4) +:+ s4)%string).
  { rewrite !append_assoc, <- H4, <- H3, <- H2, <- H1. exact H0. }
  exists o2, o3, o5. repeat split; try assumption.
  destruct O as [[-> E] | (e & -> & He & p5 & E)].
  - left. split; [reflexivity|]. eexists. rewrite Hs, E. reflexivity.
  - right. exists e. repeat split; try assumption.
    exists ((p0 +:+ p1 +:+ p2 +:+ p3 +:+ p4) +:+ p5)%string.
    rewrite append_assoc, <- E. exact Hs.
Qed.

Lemma verb_bang (r : string) : fmt.verb (String "!" r) = ("%!!(MISSING)"%string, r).
Proof. reflexivity. Qed.

(** ** [Sprintf], one step at a time *)

Lemma Sprintf_cons_other (c : ascii) (s : string) :
  (c =? fmt.percent)%char = false ->
  fmt.Sprintf (String c s) = String c (fmt.Sprintf s).
Proof. intros Hc. now rewrite Sprintf_head. Qed.

Lemma Sprintf_cons_percent (r : string) :
  fmt.Sprintf (String fmt.percent r)
  = (fst (fmt.verb r) +:+ fmt.Sprintf (snd (fmt.verb r)))%string.
Proof.
  unfold fmt.Sprintf at 1. cbn [String.length fmt.doPrintf].
  rewrite Ascii.eqb_refl. pose proof (verb_length r) as Hv.
  destruct (fmt.verb r) as [out rest]. cbn [fst snd] in *.
  now rewrite Sprintf_fuel.
Qed.

Lemma length_append (s t : string) :
  String.length (s +:+ t) = (String.length s + String.length t)%nat.
Proof.
  induction s as [|a s IH]; [reflexivity|].
  rewrite append_cons. cbn [String.length]. now rewrite IH.
Qed.

(** ** Where a percent sign can stand in what a verb writes *)

Lemma split_single (A B : string) :
  (A +:+ String fmt.percent B)%string = "%"%string -> A = EmptyString /\ B = EmptyString.
Proof.
  destruct A as [|a A]; intros E.
  - now injection E as ->.
  - rewrite append_cons in E. injection E as _ E. destruct A; discriminate E.
Qed.

Lemma split_no_percent (A B s : string) :
  no_percent s = true -> (A +:+ String fmt.percent B)%string <> s.
Proof.
  intros Hs E. subst s. rewrite no_percent_app in Hs.
  cbn [no_percent] in Hs. rewrite Ascii.eqb_refl in Hs.
  cbn [negb andb] in Hs. now rewrite andb_false_r in Hs.
Qed.

Lemma split_prefix (u w A B : string) :
  no_percent u = true ->
  (A +:+ String fmt.percent B)%string = (u +:+ w)%string ->
  exists A', A = (u +:+ A')%string /\ (A' +:+ String fmt.percent B)%string = w.
Proof.
  revert A. induction u as [|c u IH]; intros A Hu E.
  - exists A. split; [reflexivity | exact E].
  - cbn [no_percent] in Hu. apply andb_true_iff in Hu as [Hc Hu].
    apply negb_true_iff in Hc. rewrite append_cons in E.
    destruct A as [|a A].
    + injection E as <- _. now rewrite Ascii.eqb_refl in Hc.
    + rewrite append_cons in E. injection E as -> E.
      destruct (IH A Hu E) as (A' & -> & HA'). exists A'. split; [reflexivity | exact HA'].
Qed.

Lemma split_marked (u w A B : string) :
  no_percent u = true ->
  (A +:+ String fmt.percent B)%string = ("%!" +:+ u +:+ w)%string ->
  (A = EmptyString /\ B = ("!" +:+ u +:+ w)%string)
  \/ (exists A', A = ("%!" +:+ u +:+ A')%string
                 /\ (A' +:+ String fmt.percent B)%string = w).
Proof.
  intros Hu E. destruct A as [|a A].
  - left. split; [reflexivity|]. now injection E as ->.
  - right. rewrite !append_cons in E. injection E as -> E.
    destruct (split_prefix ("!" +:+ u) w A B) as (A' & -> & HA').
    + rewrite no_percent_app, Hu. reflexivity.
    + rewrite append_assoc. exact E.
    + exists A'. split; [|exact HA']. now rewrite append_assoc.
Qed.

(** Every percent sign that a verb writes is followed by an exclamation
    mark, but for the last one when the verb is the percent sign. *)
Lemma verb_marks (r A B : string) :
  fst (fmt.verb r) = (A +:+ String fmt.percent B)%string ->
  (B = EmptyString /\ exists p, r = (p +:+ String fmt.percent (snd (fmt.verb r)))%string)
  \/ exists B', B = String "!" B'.
Proof.
  destruct (verb_shape r) as (o1 & o2 & o3 & -> & H1 & H2 & H3). intros E. symmetry in E.
  assert (Hfin : forall A, (A +:+ String fmt.percent B)%string = o3 ->
    (B = EmptyString /\ exists p, r = (p +:+ String fmt.percent (snd (fmt.verb r)))%string)
    \/ exists B', B = String "!" B').
  { clear E A. intros A E. destruct H3 as [[-> Hp] | (e & -> & He & _)].
    - apply split_single in E as [_ ->]. now left.
    - rewrite <- (append_nil_r e) in E.
      apply split_marked in E as [[_ ->] | (A' & _ & E)]; [| |assumption].
      + right. eexists. reflexivity.
      + now apply split_no_percent in E. }
  assert (Hprec : forall A, (A +:+ String fmt.percent B)%string = (o2 +:+ o3)%string ->
    (B = EmptyString /\ exists p, r = (p +:+ String fmt.percent (snd (fmt.verb r)))%string)
    \/ exists B', B = String "!" B').
  { clear E A. intros A E. destruct H2 as [-> | ->]; [exact (Hfin A E)|].
    change (BADPREC +:+ o3)%string with ("%!" +:+ "(BADPREC)" +:+ o3)%string in E.
    apply split_marked in E as [[_ ->] | (A' & _ & E)]; [| |reflexivity].
    - right. eexists. reflexivity.
    - exact (Hfin A' E). }
  destruct H1 as [-> | ->]; [exact (Hprec A E)|].
  change (BADWIDTH +:+ o2 +:+ o3)%string with ("%!" +:+ "(BADWIDTH)" +:+ o2 +:+ o3)%string in E.
  apply split_marked in E as [[_ ->] | (A' & _ & E)]; [| |reflexivity].
  - right. eexists. reflexivity.
  - exact (Hprec A' E).
Qed.

(** What a verb writes starts with the percent sign alone, for the verb
    [%], or with a percent sign and an exclamation mark. *)
Lemma verb_head (r : string) :
  (fst (fmt.verb r) = "%"%string
   /\ exists p, r = (p +:+ String fmt.percent (snd (fmt.verb r)))%string)
  \/ exists e, fst (fmt.verb r) = String fmt.percent (String "!" e).
Proof.
  destruct (verb_shape r) as (o1 & o2 & o3 & E & H1 & H2 & H3). rewrite E.
  destruct H1 as [-> | ->]; [|right; eexists; reflexivity].
  destruct H2 as [-> | ->]; [|right; eexists; reflexivity].
  destruct H3 as [[-> Hp] | (e & -> & _)]; [left | right; eexists; reflexivity].
  split; [reflexivity | exact Hp].
Qed.

Lemma verb_prefix (r : string) : exists p, r = (p +:+ snd (fmt.verb r))%string.
Proof.
  destruct (verb_shape r) as (o1 & o2 & o3 & _ & _ & _ & [[_ [p Hp]] | (e & _ & _ & p & Hp)]).
  - exists (p +:+ "%")%string. rewrite append_assoc. exact Hp.
  - exists p. exact Hp.
Qed.

(** ** [Sprintf] gives back its format only when there is no verb in it *)

Lemma no_regress (n : nat) :
  forall x : string, (String.length x <= n)%nat ->
    x <> ("!(MISSING)" +:+ fmt.Sprintf x)%string.
Proof.
  induction n as [|n IH]; intros x Hn E.
  - rewrite E in Hn. rewrite length_append in Hn. cbn [String.length] in Hn. lia.
  - pose proof E as E'. rewrite E in E' at 2.
    rewrite Sprintf_app_no_percent in E' by reflexivity.
    apply (IH (fmt.Sprintf x)).
    + rewrite E in Hn. rewrite length_append in Hn. cbn [String.length] in Hn. lia.
    + rewrite E' in E at 1. now apply append_inj_l in E.
Qed.

Lemma no_growth (n : nat) :
  forall y J : string, (String.length y <= n)%nat -> J <> EmptyString ->
    fmt.Sprintf y <> (J +:+ y)%string.
Proof.
  induction n as [|n IH]; intros y J Hn HJ E.
  - destruct y; [|cbn [String.length] in Hn; lia].
    rewrite append_nil_r in E. now subst J.
  - destruct y as [|c r].
    { rewrite append_nil_r in E. now subst J. }
    cbn [String.length] in Hn.
    destruct (c =? fmt.percent)%char eqn:Hc.
    + apply Ascii.eqb_eq in Hc. subst c. rewrite Sprintf_cons_percent in E.
      destruct (verb_prefix r) as [p Hp].
      pose proof (verb_length r) as Hl.
      pose proof (verb_marks r) as Hm.
      destruct (fmt.verb r) as [out rest] eqn:Hv. cbn [fst snd] in *.
      destruct (append_eq_append _ _ _ _ E) as [(m & HJm & Hr) | (m & Hout & Hr)].
      * (* all of what the verb writes lies in J *)
        apply (IH rest (m +:+ String fmt.percent p)%string); [lia | |].
        { destruct m; discriminate. }
        rewrite Hr. rewrite Hp at 1. now rewrite append_assoc, append_cons.
      * destruct m as [|c m].
        { apply (IH rest (String fmt.percent p)); [lia | discriminate |].
          rewrite append_nil_l in Hr. rewrite <- Hr. rewrite Hp at 1. reflexivity. }
        rewrite append_cons in Hr. injection Hr as <- Hr.
        destruct (Hm J m Hout) as [[-> [p' Hp']] | [B' ->]].
        { apply (IH rest (p' +:+ "%")%string); [lia | destruct p'; discriminate |].
          rewrite append_nil_l in Hr. rewrite <- Hr. rewrite Hp' at 1.
          now rewrite append_assoc. }
        rewrite append_cons in Hr. rewrite Hr, verb_bang in Hv.
        injection Hv as <- _. destruct J as [|j J]; [now apply HJ|].
        rewrite append_cons in Hout. injection Hout as _ Hout.
        symmetry in Hout. now apply split_no_percent in Hout.
    + rewrite Sprintf_cons_other in E by exact Hc.
      destruct J as [|j J]; [now apply HJ|].
      rewrite append_cons in E. injection E as <- E.
      apply (IH r (J +:+ String c EmptyString)%string); [lia | destruct J; discriminate |].
      rewrite E. now rewrite append_assoc.
Qed.

Lemma Sprintf_changes (t : string) : no_percent t = false -> fmt.Sprintf t <> t.
Proof.
  induction t as [|c t IH]; intros Ht E; [discriminate Ht|].
  cbn [no_percent] in Ht. destruct (c =? fmt.percent)%char eqn:Hc.
  - apply Ascii.eqb_eq in Hc. subst c. rewrite Sprintf_cons_percent in E.
    destruct (verb_head t) as [[Ho [p Hp]] | [e He]].
    + rewrite Ho in E. rewrite append_cons, append_nil_l in E. injection E as E.
      apply (no_growth (String.length (snd (fmt.verb t))) (snd (fmt.verb t))
               (p +:+ "%")%string); [lia | destruct p; discriminate |].
      rewrite E. rewrite Hp at 1. now rewrite append_assoc.
    + rewrite He in E. rewrite !append_cons in E. injection E as E.
      destruct t as [|c t]; [discriminate E|]. injection E as <- E.
      rewrite verb_bang in He, E. cbn [fst snd] in He, E. injection He as <-.
      now apply (no_regress (String.length t) t (le_n _)).
  - rewrite Sprintf_cons_other in E by exact Hc. injection E as E.
    cbn [negb andb] in Ht. now apply IH.
Qed.

(** ** encoding/json: where a percent sign can come from *)

Lemma code_not_percent (c : ascii) :
  utf8.code c <> 37 -> (c =? fmt.percent)%char = false.
Proof.
  intros N. destruct (c =? fmt.percent)%char eqn:E; [|reflexivity].
  apply Ascii.eqb_eq in E. subst c. now contradiction N.
Qed.

Lemma hexdigit_not_percent (i : Z) : (json.hexdigit i =? fmt.percent)%char = false.
Proof.
  unfold json.hexdigit.
  assert (Hr : 0 <= Z.land i 15 < 16).
  { change 15 with (Z.ones 4). rewrite Z.land_ones by lia. apply Z.mod_pos_bound. lia. }
  assert (Hall : forallb (fun n => negb (match String.get n json.hex with
                                         | Some c => c | None => "0"%char end
                                         =? fmt.percent)%char) (seq 0 16) = true)
    by (vm_compute; reflexivity).
  rewrite forallb_forall in Hall.
  specialize (Hall (Z.to_nat (Z.land i 15))).
  apply negb_true_iff, Hall, in_seq. lia.
Qed.

Lemma escape_no_percent (c : ascii) :
  utf8.code c <> 37 -> no_percent (json.escape c) = true.
Proof.
  intros N. unfold json.escape.
  repeat match goal with
  | |- context [if ?b then _ else _] => destruct b
  end; cbn [no_percent]; rewrite ?no_percent_app; cbn [no_percent];
    rewrite ?hexdigit_not_percent, ?(code_not_percent c N); reflexivity.
Qed.

(** The bytes of a rune after its first byte are continuation bytes. *)
Lemma DecodeRuneInString_cont (c : ascii) (s : string) :
  high_prefix (snd (utf8.DecodeRuneInString (String c s)) - 1) s = true.
Proof.
  unfold utf8.DecodeRuneInString.
  destruct (utf8.code c <? 128); [reflexivity|].
  destruct (utf8.first (utf8.code c)) as [[[sz lo] hi]|] eqn:F; [|reflexivity].
  destruct s as [|c1 r1]; [reflexivity|].
  destruct (_ <? _)%nat; [reflexivity|].
  destruct (Z.ltb_spec (utf8.code c1) lo) as [|Hlo]; [reflexivity|].
  destruct (Z.ltb_spec hi (utf8.code c1)) as [|Hhi]; [reflexivity|].
  cbn [orb].
  assert (H1 : 128 <= lo).
  { unfold utf8.first in F.
    repeat match type of F with
    | (if ?b then _ else _) = _ =>
        destruct b; [first [discriminate F | injection F as <- <- <-; lia] | ]
    | None = _ => discriminate F
    end. }
  assert (C1 : (128 <=? utf8.code c1) = true) by (apply Z.leb_le; lia).
  destruct (sz <=? 2)%nat; [cbn [snd Nat.sub high_prefix]; now rewrite C1|].
  destruct r1 as [|c2 r2]; [reflexivity|].
  destruct (utf8.cont (utf8.code c2)) eqn:C2; [|reflexivity]. cbn [negb].
  assert (C2' : (128 <=? utf8.code c2) = true)
    by (unfold utf8.cont in C2; now apply andb_true_iff in C2 as [? _]).
  destruct (sz <=? 3)%nat; [cbn [snd Nat.sub high_prefix]; now rewrite C1, C2'|].
  destruct r2 as [|c3 r3]; [reflexivity|].
  destruct (utf8.cont (utf8.code c3)) eqn:C3; [|reflexivity]. cbn [negb].
  assert (C3' : (128 <=? utf8.code c3) = true)
    by (unfold utf8.cont in C3; now apply andb_true_iff in C3 as [? _]).
  cbn [snd Nat.sub high_prefix]. now rewrite C1, C2', C3'.
Qed.

Lemma high_prefix_0 (s : string) : high_prefix 0 s = true.
Proof. destruct s; reflexivity. Qed.

(** The loop writes a percent sign exactly when it reads one. *)
Lemma appendString_loop_percent (src : string) :
  forall (pending : nat) (copy : bool),
    high_prefix pending src = true ->
    no_percent (json.appendString_loop pending copy src) = no_percent src.
Proof.
  induction src as [|c rest IH]; intros pending copy Hp; [reflexivity|].
  cbn [json.appendString_loop]. destruct pending as [|k].
  - destruct (Z.ltb_spec (utf8.code c) 128) as [Hlow | Hhigh].
    + destruct (json.htmlSafeSet (utf8.code c)) eqn:Hs.
      * cbn [no_percent]. now rewrite IH by apply high_prefix_0.
      * assert (N : utf8.code c <> 37) by (intros E; rewrite E in Hs; discriminate Hs).
        rewrite no_percent_app, escape_no_percent, IH by (assumption || apply high_prefix_0).
        cbn [no_percent]. now rewrite code_not_percent.
    + assert (N : (c =? fmt.percent)%char = false)
        by (apply code_not_percent; lia).
      pose proof (DecodeRuneInString_cont c rest) as Hc.
      destruct (utf8.DecodeRuneInString (String c rest)) as [r size]. cbn [snd] in Hc.
      cbn [no_percent]. rewrite N. cbn [negb andb].
      destruct ((r =? utf8.RuneError) && (size =? 1)%nat).
      { rewrite no_percent_app. now rewrite IH by apply high_prefix_0. }
      destruct ((r =? 8232) || (r =? 8233)).
      { rewrite no_percent_app. cbn [no_percent]. rewrite hexdigit_not_percent.
        now rewrite IH by assumption. }
      cbn [no_percent]. rewrite N. now rewrite IH by assumption.
  - cbn [high_prefix] in Hp. apply andb_true_iff in Hp as [Hc Hp]. apply Z.leb_le in Hc.
    assert (N : (c =? fmt.percent)%char = false)
      by (apply code_not_percent; lia).
    cbn [no_percent]. rewrite N. cbn [negb andb].
    destruct copy; [cbn [no_percent]; rewrite N|]; now rewrite IH by assumption.
Qed.

Lemma appendString_percent (src : string) :
  no_percent (json.appendString src) = no_percent src.
Proof.
  unfold json.appendString. cbn [no_percent]. rewrite no_percent_app.
  rewrite appendString_loop_percent by apply high_prefix_0.
  cbn. now rewrite andb_true_r.
Qed.

Lemma entries_percent (kvs : list (string * string)) (first : bool) :
  no_percent (json.entries first kvs) = forallb entry_no_percent kvs.
Proof.
  revert first. induction kvs as [|[k v] kvs IH]; intros first; [reflexivity|].
  cbn [json.entries forallb]. rewrite !no_percent_app, !appendString_percent, IH.
  unfold entry_no_percent. cbn [fst snd].
  destruct first; cbn [no_percent]; cbn; now rewrite ?andb_assoc.
Qed.

Lemma Marshal_percent (m : gmap string string) :
  no_percent (string_of_bytes (json.Marshal (Some m))) = true
  <-> forall k v, m !! k = Some v -> no_percent k = true /\ no_percent v = true.
Proof.
  unfold json.Marshal. rewrite string_of_bytes_of_string.
  rewrite !no_percent_app, entries_percent. cbn [no_percent]. cbn.
  rewrite andb_true_r, forallb_forall. unfold json.sorted_entries. split.
  - intros H k v Hkv.
    assert (Hin : In (k, v) (merge_sort json.key_le (map_to_list m))).
    { apply list_elem_of_In. rewrite merge_sort_Permutation.
      now apply elem_of_map_to_list. }
    apply H in Hin. unfold entry_no_percent in Hin. cbn [fst snd] in Hin.
    now apply andb_true_iff in Hin.
  - intros H [k v] Hin. apply list_elem_of_In in Hin.
    rewrite merge_sort_Permutation in Hin. apply elem_of_map_to_list in Hin.
    unfold entry_no_percent. cbn [fst snd]. apply andb_true_iff. now apply H.
Qed.

Lemma Marshal_options_percent (options : option (gmap string string)) :
  no_percent (string_of_bytes (json.Marshal options)) = true <-> options_no_percent options.
Proof.
  destruct options as [m|]; [apply Marshal_percent|].
  split; [constructor | reflexivity].
Qed.

(** The token has the layout of the documentation exactly when no percent
    sign stands in the first 4 bytes of the key or in a key or value of
    the parameter mapping: a single percent sign there, whatever follows
    it, makes [fmt.Sprintf] write something else than it read. *)
Theorem GenerateScopedSearchKey_layout_iff (conv : Conversion) (c : Client)
    (searchKey : string) (options : option (gmap string string)) :
  (4 <= String.length searchKey)%nat ->
  GenerateScopedSearchKey c searchKey options = Returned (scoped_key_layout searchKey options)
  <-> no_percent (string_of_bytes (firstn 4 (bytes_of_string searchKey))) = true
      /\ options_no_percent options.
Proof.
  intros Hlen. rewrite <- Marshal_options_percent, <- andb_true_iff, <- no_percent_app.
  rewrite GenerateScopedSearchKey_long_key by assumption.
  set (digest := base64.EncodeToString
                   (hmac_sha256 (bytes_of_string searchKey) (json.Marshal options))).
  set (t := (string_of_bytes (firstn 4 (bytes_of_string searchKey))
             +:+ string_of_bytes (json.Marshal options))%string).
  assert (Hl : scoped_key_layout searchKey options
               = base64.EncodeToString (bytes_of_string (digest +:+ t)%string)).
  { unfold scoped_key_layout, t.
    now rewrite !bytes_of_string_app, !bytes_of_string_of_bytes. }
  rewrite Hl. split.
  - intros [= E]. unfold base64.EncodeToString in E.
    apply Encode_inj, bytes_of_string_inj, append_inj_l in E.
    destruct (no_percent t) eqn:Ht; [reflexivity|].
    now apply Sprintf_changes in Ht.
  - intros Ht. now rewrite Sprintf_no_percent.
Qed.

(** A nil mapping is written as [null], which holds no percent sign. *)
Lemma GenerateScopedSearchKey_layout_iff_witness :
  GenerateScopedSearchKey (conv := tmpBuf) double.client "abcd" None
  = Returned (scoped_key_layout "abcd" None).
Proof.
  apply (proj2 (GenerateScopedSearchKey_layout_iff tmpBuf double.client "abcd" None
                  ltac:(simpl; lia))).
  split; [reflexivity | exact I].
Defined.

(** ** Statuses that no operation lists *)
Section UnlistedStatuses.
Context `{pkg : Package}.

Implicit Types (c : Client).

(** The operations that return a value test the statuses they list and
    nothing else: a response with any other status, a 500 or a 403 as
    well as a 200, is decoded, and the operation returns what the body
    decodes to, or the decoder's error.  [CreateAPIKey] lists 400 and 401,
    the two collection reads 404 and 401, [CreateCollection] 409, 401 and
    400. *)
Theorem unlisted_statuses_are_decoded c (collectionName description : string)
    (actions : list APIAction) (collections : list string)
    (collectionSchema : CollectionSchema.t) (status : Z) (b : ReadCloser) :
  (status <> http.StatusNotFound -> status <> http.StatusUnauthorized ->
   answer (RetrieveCollection c collectionName) (Ok (http.MkResponse status b))
     = match Decode_Collection b with Err e => Err e | Ok v => Ok v end /\
   answer (DeleteCollection c collectionName) (Ok (http.MkResponse status b))
     = match Decode_Collection b with Err e => Err e | Ok v => Ok v end) /\
  (status <> http.StatusBadRequest -> status <> http.StatusUnauthorized ->
   answer (CreateAPIKey c description actions collections) (Ok (http.MkResponse status b))
     = match Decode_APIKey b with Err e => Err e | Ok v => Ok v end) /\
  (CollectionSchema.Name collectionSchema <> EmptyString ->
   CollectionSchema.Fields collectionSchema <> [] ->
   status <> http.StatusConflict -> status <> http.StatusUnauthorized ->
   status <> http.StatusBadRequest ->
   answer (CreateCollection c collectionSchema) (Ok (http.MkResponse status b))
     = match Decode_Collection b with Err e => Err e | Ok v => Ok v end).
Proof.
  unfold RetrieveCollection, DeleteCollection, CreateAPIKey, CreateCollection, apiCall.
  split; [|split].
  - intros H404 H401. apply Z.eqb_neq in H404, H401.
    cbn [bind answer http.StatusCode http.Body]. rewrite H404, H401.
    destruct (Decode_Collection b); split; reflexivity.
  - intros H400 H401. apply Z.eqb_neq in H400, H401.
    cbn [bind answer http.StatusCode http.Body]. rewrite H400, H401.
    destruct (Decode_APIKey b); reflexivity.
  - intros Hname Hfields H409 H401 H400. apply Z.eqb_neq in H409, H401, H400.
    rewrite eqb_empty_false, length_eqb_false by assumption.
    cbn [bind answer http.StatusCode http.Body]. rewrite H409, H401, H400.
    destruct (Decode_Collection b); reflexivity.
Qed.

End UnlistedStatuses.

(** ** The further theorems at the inputs of the package's tests *)

(** A 500 response with a message is a collection without a name to the
    caller, and an empty one the decoder's [io.EOF]. *)
Lemma unlisted_statuses_are_decoded_witness :
  answer (RetrieveCollection double.client "companies")
         (Ok (http.MkResponse 500 (double.Message "internal error")))
  = Ok double.zeroCollection /\
  answer (CreateAPIKey double.client "API key" ["documents:*"] ["companies"])
         (Ok (http.MkResponse 503 double.Empty))
  = Err double.EOF /\
  answer (CreateCollection double.client double.testCollectionSchema)
         (Ok (http.MkResponse 201 (double.ACollection double.testCollection)))
  = Ok double.testCollection.
Proof.
  split; [|split].
  - exact (proj1 (proj1 (unlisted_statuses_are_decoded (pkg := double.package) double.client
             "companies" "" [] [] double.testCollectionSchema
             500 (double.Message "internal error"))
             ltac:(discriminate) ltac:(discriminate))).
  - exact (proj1 (proj2 (unlisted_statuses_are_decoded (pkg := double.package) double.client
             "companies" "API key" ["documents:*"] ["companies"] double.testCollectionSchema
             503 double.Empty))
             ltac:(discriminate) ltac:(discriminate)).
  - exact (proj2 (proj2 (unlisted_statuses_are_decoded (pkg := double.package) double.client
             "companies" "" [] [] double.testCollectionSchema
             201 (double.ACollection double.testCollection)))
             ltac:(discriminate) ltac:(discriminate) ltac:(discriminate)
             ltac:(discriminate) ltac:(discriminate)).
Defined.


(** The key of the package's tests is read from a 200 response, a 401
    response gives the unauthorized error, and a key where a list is
    expected the decoder's type error. *)
Lemma list_and_key_reads_witness :
  answer (RetrieveAPIKey (pkg := listdouble.package) double.client 1)
         (Ok (http.MkResponse 200 (listdouble.AKey listdouble.apiKey)))
  = Ok listdouble.apiKey /\
  answer (APIKeys (pkg := listdouble.package) (lists := listdouble.lists) double.client)
         (Ok (http.MkResponse 401 listdouble.Nothing))
  = Err ErrUnauthorized /\
  answer (RetrieveCollections (pkg := listdouble.package) (lists := listdouble.lists)
            double.client)
         (Ok (http.MkResponse 500 (listdouble.AKey listdouble.apiKey)))
  = Err (listdouble.type_error "object" "[]*typesense.Collection").
Proof.
  split; [|split].
  - exact (proj1 (proj2 (proj1 (proj2 (list_and_key_reads (pkg := listdouble.package)
             (lists := listdouble.lists) double.client 1 200
             (listdouble.AKey listdouble.apiKey) double.EOF)) ltac:(discriminate)))).
  - exact (proj2 (proj2 (proj1 (list_and_key_reads (pkg := listdouble.package)
             (lists := listdouble.lists) double.client 1 401
             listdouble.Nothing double.EOF) eq_refl))).
  - exact (proj1 (proj1 (proj2 (list_and_key_reads (pkg := listdouble.package)
             (lists := listdouble.lists) double.client 1 500
             (listdouble.AKey listdouble.apiKey) double.EOF)) ltac:(discriminate))).
Defined.

(** The same token from two clients and two byte conversions. *)
Lemma token_determines_parts_witness :
  hmac_sha256 (bytes_of_string "RN23GFr1s6jQ9kgSNg2O7fYcAUXU7127")
    (json.Marshal (Some {[ "filter_by" := "company_id:124" ]}))
  = hmac_sha256 (bytes_of_string "RN23GFr1s6jQ9kgSNg2O7fYcAUXU7127")
      (json.Marshal (Some {[ "filter_by" := "company_id:124" ]})) /\
  firstn 4 (bytes_of_string "RN23GFr1s6jQ9kgSNg2O7fYcAUXU7127")
  = firstn 4 (bytes_of_string "RN23GFr1s6jQ9kgSNg2O7fYcAUXU7127") /\
  json.Marshal (Some {[ "filter_by" := "company_id:124" ]})
  = json.Marshal (Some {[ "filter_by" := "company_id:124" ]}).
Proof.
  apply (token_determines_parts exact tmpBuf double.client
           (MkClient (MkNode "https" "search.example.org" "443" "abc"))
           "RN23GFr1s6jQ9kgSNg2O7fYcAUXU7127" "RN23GFr1s6jQ9kgSNg2O7fYcAUXU7127"
           (Some {[ "filter_by" := "company_id:124" ]})
           (Some {[ "filter_by" := "company_id:124" ]}));
    vm_compute; first [lia | reflexivity].
Defined.
